(** * The [Transformer] module of [tst/Transformer.py]

    A shallow embedding of the class [Transformer] (constructor [__init__]
    and method [forward]) together with the properties stated about it.

    Tensors are PyTorch objects: they live in a store, variables hold
    references to them, [add_] updates a tensor in place and every other
    operation allocates its result.  The Encoder and Decoder layers, the two
    positional-encoding generators and the initialiser of [nn.Linear] are not
    part of this file of the repository; they are the fields of the class
    [Collaborators].  The scalar type of the tensors and its arithmetic are
    the fields of the class [Scalar]: nothing below depends on how scalars
    are rounded. *)

From Stdlib Require Import ZArith String Floats QArith Qabs Lqa.
From stdpp Require Import base list strings.

Local Open Scope Z_scope.
Local Open Scope nat_scope.

(** ** Python values, exceptions, outcomes *)

(** The values a caller can pass for the keyword arguments [dropout] and
    [chunk_mode].  A Python [float] is a binary64 number. *)
Inductive pyval :=
| PyNone
| PyBool (b : bool)
| PyInt (z : Z)
| PyFloat (f : float)
| PyStr (s : string).

(** [NameError] is the exception [__init__] raises itself (line 95);
    [RuntimeError] is what the tensor library raises on a shape mismatch;
    [Foreign] wraps whatever a collaborator raises. *)
Inductive exn :=
| NameError (msg : string)
| RuntimeError
| Foreign (what : string).

Inductive outcome (E A : Type) :=
| Ok (a : A)
| Error (e : E).
Arguments Ok {E A} a.
Arguments Error {E A} e.

Abbreviation result := (outcome exn).

(** ** Scalars and tensors *)

Class Scalar := {
  elt : Type;
  zero : elt;
  eadd : elt → elt → elt;
  emul : elt → elt → elt;
  sigmoid : elt → elt
}.

Section Tensors.
Context `{Scalar}.

(** A tensor is a shape and its elements in row-major order. *)
Record tensor := Tensor { shape : list nat; data : list elt }.

#[global] Instance tensor_inhabited : Inhabited tensor := populate (Tensor [] []).

Definition numel (sh : list nat) : nat := foldr Nat.mul 1 sh.

(** [row n i xs] is the [i]-th block of [n] consecutive elements. *)
Definition row (n i : nat) (xs : list elt) : list elt := take n (drop (i * n) xs).

Definition dot (xs ws : list elt) : elt :=
  foldl (λ acc p, eadd acc (emul p.1 p.2)) zero (zip xs ws).

(** One input row through [y = x W^T + b], [W] of shape [(o, i)]. *)
Definition affine (i o : nat) (W b xrow : list elt) : list elt :=
  (λ j, eadd (dot xrow (row i j W)) (nth j b zero)) <$> seq 0 o.

(** [torch.nn.functional.linear]: acts on the last dimension of [x], which
    must be the number of columns of [W]; every leading dimension is kept. *)
Definition linear_val (x W b : tensor) : result tensor :=
  match shape W, reverse (shape x) with
  | [o; i], d :: pre =>
      if bool_decide (d = i ∧ shape b = [o]) then
        Ok (Tensor (reverse pre ++ [o])
              (concat ((λ r, affine i o (data W) (data b) (row i r (data x)))
                         <$> seq 0 (numel pre))))
      else Error RuntimeError
  | _, _ => Error RuntimeError
  end.

(** Broadcasting of [other] onto [self] for an in-place operation, on the
    two shapes read from the innermost dimension outwards: a dimension of
    [other] is the one of [self] or 1, and [other] has no more dimensions
    than [self]. *)
Fixpoint broadcastable (ts os : list nat) : bool :=
  match os, ts with
  | [], _ => true
  | o :: os', t :: ts' =>
      (bool_decide (o = t) || bool_decide (o = 1)) && broadcastable ts' os'
  | _ :: _, [] => false
  end.

(** The row-major index into [other] that is added at row-major index [i]
    of [self]. *)
Fixpoint bidx (ts os : list nat) (i : nat) : nat :=
  match ts, os with
  | t :: ts', o :: os' =>
      (if bool_decide (o = t) then i mod t else 0) + o * bidx ts' os' (i / t)
  | _, _ => 0
  end.

(** The value [self] holds after [self.add_(other)]. *)
Definition add_val (self other : tensor) : result tensor :=
  let ts := reverse (shape self) in
  let os := reverse (shape other) in
  if broadcastable ts os then
    Ok (Tensor (shape self)
          (imap (λ i a, eadd a (nth (bidx ts os i) (data other) zero)) (data self)))
  else Error RuntimeError.

(** [torch.sigmoid], elementwise. *)
Definition sigmoid_val (x : tensor) : tensor :=
  Tensor (shape x) (sigmoid <$> data x).

End Tensors.

(** ** Collaborators *)

(** Modelled from the spec: the modules [tst.Encoder], [tst.Decoder] and
    [tst.utils], imported at lines 4-6, are not among the sources.  The
    specification gives a layer as a function from a tensor (and, for a
    decoder, a memory) to a new tensor, and a generator as a pure function
    from a length and a width to a matrix; this class takes them as such.
    A layer object carries its own parameters and its mode; its call sees
    and advances the state of the random generator (dropout draws from it
    in training mode), returns a tensor or raises, and touches no tensor of
    the store.  [Linear_init] stands for the initialisation of the weight
    and of the bias inside [torch.nn.Linear]. *)
Class Collaborators `{Scalar} := {
  rng_t : Type;
  Encoder : Type;
  Decoder : Type;
  (** [Encoder(d_model, q, v, h, k, dropout=..., chunk_mode=...)] *)
  Encoder_new : Z → Z → Z → Z → Z → pyval → pyval →
                rng_t → outcome string Encoder * rng_t;
  Decoder_new : Z → Z → Z → Z → Z → pyval → pyval →
                rng_t → outcome string Decoder * rng_t;
  (** [layer(encoding)] and [layer(decoding, encoding)] *)
  Encoder_forward : Encoder → tensor → rng_t → outcome string tensor * rng_t;
  Decoder_forward : Decoder → tensor → tensor →
                    rng_t → outcome string tensor * rng_t;
  (** [generate_original_PE(k, d_model)], [generate_regular_PE(k, d_model)] *)
  generate_original_PE : Z → Z → outcome string tensor;
  generate_regular_PE : Z → Z → outcome string tensor;
  (** the initial weight and bias elements of [nn.Linear(i, o)] *)
  Linear_init : Z → Z → rng_t → outcome string (list elt * list elt) * rng_t
}.

(** The collaborator calls a construction makes, in order. *)
Inductive call :=
| CallEncoder (d_model q v h k : Z) (dropout chunk_mode : pyval)
| CallDecoder (d_model q v h k : Z) (dropout chunk_mode : pyval)
| CallLinear (i o : Z)
| CallPE (name : string) (k d_model : Z).

(** A reference to a tensor is its index in the store. *)
Abbreviation loc := nat.

Section Model.
Context `{Collaborators}.

(** ** State and the monad of effects *)

(** [store]: the live tensors, a reference being an index; [rng]: the
    state of the random generator; [trace]: the collaborator constructors
    called so far (a ghost field, nothing reads it). *)
Record state := State { store : list tensor; rng : rng_t; trace : list call }.

Definition M (A : Type) : Type := state → result A * state.

Definition ret {A} (a : A) : M A := λ s, (Ok a, s).

Definition bind {A B} (c : M A) (k : A → M B) : M B :=
  λ s, match c s with
       | (Ok a, s') => k a s'
       | (Error e, s') => (Error e, s')
       end.

Notation "x <- c ;; k" := (bind c (λ x, k))
  (at level 100, c at next level, right associativity).
Notation "c ;;; k" := (bind c (λ _, k))
  (at level 100, right associativity).

Definition raise {A} (e : exn) : M A := λ s, (Error e, s).

Definition lift {A} (r : result A) : M A := λ s, (r, s).

(** A call into a collaborator: it sees and advances the random generator. *)
Definition foreign {A} (f : rng_t → outcome string A * rng_t) : M A :=
  λ s, match f (rng s) with
       | (Ok a, r) => (Ok a, State (store s) r (trace s))
       | (Error w, r) => (Error (Foreign w), State (store s) r (trace s))
       end.

Definition log (c : call) : M unit :=
  λ s, (Ok tt, State (store s) (rng s) (trace s ++ [c])).

Definition alloc (t : tensor) : M loc :=
  λ s, (Ok (length (store s)), State (store s ++ [t]) (rng s) (trace s)).

Definition read (l : loc) : M tensor := λ s, (Ok (store s !!! l), s).

Definition write (l : loc) (t : tensor) : M unit :=
  λ s, (Ok tt, State (<[l:=t]> (store s)) (rng s) (trace s)).

(** [for b in l: a = f(a, b)] *)
Fixpoint foldM {A B} (f : A → B → M A) (a : A) (l : list B) : M A :=
  match l with
  | [] => ret a
  | b :: l' => a' <- f a b ;; foldM f a' l'
  end.

(** [[c for _ in range(n)]] *)
Fixpoint replicateM {A} (n : nat) (c : M A) : M (list A) :=
  match n with
  | 0 => ret []
  | S n' => a <- c ;; l <- replicateM n' c ;; ret (a :: l)
  end.

(** ** Tensor operations on references *)

Record Linear := { weight : loc; bias : loc }.

(** [nn.Linear.__call__]: a new tensor. *)
Definition Linear_call (self : Linear) (x : loc) : M loc :=
  xv <- read x ;;
  W <- read (weight self) ;;
  b <- read (bias self) ;;
  y <- lift (linear_val xv W b) ;;
  alloc y.

(** [self.add_(other)]: in place, no new tensor. *)
Definition add_ (self other : loc) : M unit :=
  a <- read self ;;
  o <- read other ;;
  y <- lift (add_val a o) ;;
  write self y.

Definition torch_sigmoid (x : loc) : M loc :=
  xv <- read x ;;
  alloc (sigmoid_val xv).

Definition Encoder_call (layer : Encoder) (x : loc) : M loc :=
  xv <- read x ;;
  y <- foreign (Encoder_forward layer xv) ;;
  alloc y.

Definition Decoder_call (layer : Decoder) (x memory : loc) : M loc :=
  xv <- read x ;;
  mv <- read memory ;;
  y <- foreign (Decoder_forward layer xv mv) ;;
  alloc y.

(** ** Collaborator constructors *)

Definition Encoder_ctor (d_model q v h k : Z) (dropout chunk_mode : pyval)
  : M Encoder :=
  log (CallEncoder d_model q v h k dropout chunk_mode) ;;;
  foreign (Encoder_new d_model q v h k dropout chunk_mode).

Definition Decoder_ctor (d_model q v h k : Z) (dropout chunk_mode : pyval)
  : M Decoder :=
  log (CallDecoder d_model q v h k dropout chunk_mode) ;;;
  foreign (Decoder_new d_model q v h k dropout chunk_mode).

(** [nn.Linear(i, o)]: a weight of shape [(o, i)] and a bias of shape [(o)]. *)
Definition nn_Linear (i o : Z) : M Linear :=
  log (CallLinear i o) ;;;
  wb <- foreign (Linear_init i o) ;;
  lw <- alloc (Tensor [Z.to_nat o; Z.to_nat i] wb.1) ;;
  lb <- alloc (Tensor [Z.to_nat o] wb.2) ;;
  ret {| weight := lw; bias := lb |}.

(** [nn.Parameter(pe_functions[pe](k, d_model), requires_grad=False)] *)
Definition nn_Parameter_PE (name : string) (gen : Z → Z → outcome string tensor)
    (k d_model : Z) : M loc :=
  log (CallPE name k d_model) ;;;
  t <- foreign (λ r, (gen k d_model, r)) ;;
  alloc t.

(** ** The class [Transformer] *)

Record Transformer := {
  layers_encoding : list Encoder;
  layers_decoding : list Decoder;
  _embedding : Linear;
  _linear : Linear;
  _PE : option loc
}.

(** The dictionary of lines 85-88, in insertion order. *)
Definition pe_functions : list (string * (Z → Z → outcome string tensor)) :=
  [("original"%string, generate_original_PE);
   ("regular"%string, generate_regular_PE)].

Definition pe_keys : list string := pe_functions.*1.

Fixpoint pe_lookup (name : string)
    (d : list (string * (Z → Z → outcome string tensor)))
  : option (Z → Z → outcome string tensor) :=
  match d with
  | [] => None
  | (key, f) :: d' => if String.eqb name key then Some f else pe_lookup name d'
  end.

(** [", ".join(keys)] *)
Fixpoint join (sep : string) (l : list string) : string :=
  match l with
  | [] => EmptyString
  | [x] => x
  | x :: l' => String.append x (String.append sep (join sep l'))
  end.

Definition dquote : string := String (Ascii.ascii_of_nat 34) EmptyString.

(** The message of line 96:
    [f'PE "{pe}" not understood. Must be one of {", ".join(...)} or None.'] *)
Definition pe_message (pe : string) : string :=
  String.append "PE "
    (String.append dquote
       (String.append pe
          (String.append dquote
             (String.append " not understood. Must be one of "
                (String.append (join ", " pe_keys) " or None."))))).

(** Lines 85-96.  [pe] is a string or [None]. *)
Definition init_PE (k d_model : Z) (pe : option string) : M (option loc) :=
  match pe with
  | Some name =>
      match pe_lookup name pe_functions with
      | Some gen => p <- nn_Parameter_PE name gen k d_model ;; ret (Some p)
      | None => raise (NameError (pe_message name))
      end
  | None => ret None
  end.

(** Lines 52-96. *)
Definition __init__ (d_input d_model d_output q v h k N : Z)
    (dropout chunk_mode : pyval) (pe : option string) : M Transformer :=
  encs <- replicateM (Z.to_nat N)
            (Encoder_ctor d_model q v h k dropout chunk_mode) ;;
  decs <- replicateM (Z.to_nat N)
            (Decoder_ctor d_model q v h k dropout chunk_mode) ;;
  emb <- nn_Linear d_input d_model ;;
  lin <- nn_Linear d_model d_output ;;
  tbl <- init_PE k d_model pe ;;
  ret {| layers_encoding := encs; layers_decoding := decs;
         _embedding := emb; _linear := lin; _PE := tbl |}.

(** The defaults of the signature, lines 61-63. *)
Definition default_dropout : pyval := PyFloat 0x1.3333333333333p-2%float.
Definition default_chunk_mode : pyval := PyBool true.
Definition default_pe : option string := None.

(** A call [Transformer(d_input, ..., N, ...)] where each of the three
    keyword arguments is given or omitted. *)
Definition Transformer_new (d_input d_model d_output q v h k N : Z)
    (dropout chunk_mode : option pyval) (pe : option (option string))
  : M Transformer :=
  __init__ d_input d_model d_output q v h k N
    (default default_dropout dropout)
    (default default_chunk_mode chunk_mode)
    (default default_pe pe).

(** Lines 117-118 and 125-126. *)
Definition add_PE (self : Transformer) (encoding : loc) : M unit :=
  match _PE self with
  | Some pe => add_ encoding pe
  | None => ret tt
  end.

(** Lines 98-136. *)
Definition forward (self : Transformer) (x : loc) : M loc :=
  encoding <- Linear_call (_embedding self) x ;;
  add_PE self encoding ;;;
  encoding <- foldM (λ encoding layer, Encoder_call layer encoding)
                encoding (layers_encoding self) ;;
  add_PE self encoding ;;;
  let decoding := encoding in
  decoding <- foldM (λ decoding layer, Decoder_call layer decoding encoding)
                decoding (layers_decoding self) ;;
  output <- Linear_call (_linear self) decoding ;;
  output <- torch_sigmoid output ;;
  ret output.

(** [forward] with the two additions of lines 117-118 and 125-126 taken out. *)
Definition forward_without_PE (self : Transformer) (x : loc) : M loc :=
  encoding <- Linear_call (_embedding self) x ;;
  encoding <- foldM (λ encoding layer, Encoder_call layer encoding)
                encoding (layers_encoding self) ;;
  let decoding := encoding in
  decoding <- foldM (λ decoding layer, Decoder_call layer decoding encoding)
                decoding (layers_decoding self) ;;
  output <- Linear_call (_linear self) decoding ;;
  output <- torch_sigmoid output ;;
  ret output.

(** ** The forward pass as a composition of functions on tensor values

    This is the data flow as the specification words it: no store, no
    references; only the random generator is threaded, through the layers. *)

Definition V (A : Type) : Type := rng_t → result A * rng_t.

Definition vret {A} (a : A) : V A := λ r, (Ok a, r).

Definition vbind {A B} (c : V A) (k : A → V B) : V B :=
  λ r, match c r with
       | (Ok a, r') => k a r'
       | (Error e, r') => (Error e, r')
       end.

Notation "x <~ c ;; k" := (vbind c (λ x, k))
  (at level 100, c at next level, right associativity).

Definition vlift {A} (x : result A) : V A := λ r, (x, r).

Definition vforeign {A} (f : rng_t → outcome string A * rng_t) : V A :=
  λ r, match f r with
       | (Ok a, r') => (Ok a, r')
       | (Error w, r') => (Error (Foreign w), r')
       end.

(** Encoder layers 1..N, each fed the output of the one before. *)
Fixpoint encoder_stack (layers : list Encoder) (t : tensor) : V tensor :=
  match layers with
  | [] => vret t
  | layer :: rest => t' <~ vforeign (Encoder_forward layer t) ;; encoder_stack rest t'
  end.

(** Decoder layers 1..N: [D_i = layer_i(D_(i-1), memory)], one fixed memory. *)
Fixpoint decoder_stack (layers : list Decoder) (d memory : tensor) : V tensor :=
  match layers with
  | [] => vret d
  | layer :: rest =>
      d' <~ vforeign (Decoder_forward layer d memory) ;; decoder_stack rest d' memory
  end.

(** [t + table] if a table exists, else [t]. *)
Definition plus_PE (table : option tensor) (t : tensor) : result tensor :=
  match table with
  | Some pe => add_val t pe
  | None => Ok t
  end.

(** The parameters [forward] reads, as values. *)
Record parameters := {
  embedding_weight : tensor;
  embedding_bias : tensor;
  projection_weight : tensor;
  projection_bias : tensor;
  table : option tensor
}.

Definition forward_spec (p : parameters) (encs : list Encoder)
    (decs : list Decoder) (x : tensor) : V tensor :=
  E0 <~ vlift (linear_val x (embedding_weight p) (embedding_bias p)) ;;
  E0' <~ vlift (plus_PE (table p) E0) ;;
  M0 <~ encoder_stack encs E0' ;;
  Mem <~ vlift (plus_PE (table p) M0) ;;
  DN <~ decoder_stack decs Mem Mem ;;
  P <~ vlift (linear_val DN (projection_weight p) (projection_bias p)) ;;
  vret (sigmoid_val P).

(** The values of the parameters of [self] in a store. *)
Definition parameters_of (self : Transformer) (st : list tensor) : parameters :=
  {| embedding_weight := st !!! weight (_embedding self);
     embedding_bias := st !!! bias (_embedding self);
     projection_weight := st !!! weight (_linear self);
     projection_bias := st !!! bias (_linear self);
     table := (λ l, st !!! l) <$> _PE self |}.

(** Every reference the object holds is to a live tensor of the store. *)
Definition allocated (self : Transformer) (st : list tensor) : Prop :=
  weight (_embedding self) < length st ∧
  bias (_embedding self) < length st ∧
  weight (_linear self) < length st ∧
  bias (_linear self) < length st ∧
  ∀ l, _PE self = Some l → l < length st.

(** A layer that draws nothing from the random generator (evaluation mode). *)
Definition Encoder_deterministic (layer : Encoder) : Prop :=
  ∀ t r r', Encoder_forward layer t r = ((Encoder_forward layer t r').1, r).

Definition Decoder_deterministic (layer : Decoder) : Prop :=
  ∀ t m r r', Decoder_forward layer t m r = ((Decoder_forward layer t m r').1, r).

(** ** Proof devices

    [forward] and [forward_spec] cut at the two positional additions. *)

Definition decode_tail (self : Transformer) (encoding : loc) : M loc :=
  let decoding := encoding in
  decoding <- foldM (λ decoding layer, Decoder_call layer decoding encoding)
                decoding (layers_decoding self) ;;
  output <- Linear_call (_linear self) decoding ;;
  output <- torch_sigmoid output ;;
  ret output.

Definition encode_tail (self : Transformer) (encoding : loc) : M loc :=
  encoding <- foldM (λ encoding layer, Encoder_call layer encoding)
                encoding (layers_encoding self) ;;
  add_PE self encoding ;;;
  decode_tail self encoding.

Definition decode_spec (p : parameters) (decs : list Decoder) (Mem : tensor)
  : V tensor :=
  DN <~ decoder_stack decs Mem Mem ;;
  P <~ vlift (linear_val DN (projection_weight p) (projection_bias p)) ;;
  vret (sigmoid_val P).

Definition encode_spec (p : parameters) (encs : list Encoder)
    (decs : list Decoder) (E0' : tensor) : V tensor :=
  M0 <~ encoder_stack encs E0' ;;
  Mem <~ vlift (plus_PE (table p) M0) ;;
  decode_spec p decs Mem.

(** What a run did, against its value-level counterpart [v]: the store only
    grew past [base], the trace is [tr], the generator and the outcome are
    those of [v], and a returned reference is at least [lo]. *)
Definition tracks (base : list tensor) (tr : list call) (lo : nat)
    (run : result loc * state) (v : result tensor * rng_t) : Prop :=
  base `prefix_of` store run.2 ∧ trace run.2 = tr ∧ rng run.2 = v.2 ∧
  match run.1, v.1 with
  | Ok l, Ok y => lo ≤ l < length (store run.2) ∧ store run.2 !!! l = y
  | Error e, Error e' => e = e'
  | _, _ => False
  end.

(** Lines 82-96, the stacks being built. *)
Definition init_rest (d_input d_model d_output k : Z) (pe : option string)
    (encs : list Encoder) (decs : list Decoder) : M Transformer :=
  emb <- nn_Linear d_input d_model ;;
  lin <- nn_Linear d_model d_output ;;
  tbl <- init_PE k d_model pe ;;
  ret {| layers_encoding := encs; layers_decoding := decs;
         _embedding := emb; _linear := lin; _PE := tbl |}.

(** Lines 67-80. *)
Definition init_stacks (d_model q v h k N : Z) (dropout chunk_mode : pyval)
  : M (list Encoder * list Decoder) :=
  encs <- replicateM (Z.to_nat N)
            (Encoder_ctor d_model q v h k dropout chunk_mode) ;;
  decs <- replicateM (Z.to_nat N)
            (Decoder_ctor d_model q v h k dropout chunk_mode) ;;
  ret (encs, decs).

(** The four tensors the two affine maps allocate. *)
Definition affine_parameters (d_input d_model d_output : Z)
    (wb1 wb2 : list elt * list elt) : list tensor :=
  [Tensor [Z.to_nat d_model; Z.to_nat d_input] wb1.1;
   Tensor [Z.to_nat d_model] wb1.2;
   Tensor [Z.to_nat d_output; Z.to_nat d_model] wb2.1;
   Tensor [Z.to_nat d_output] wb2.2].

(** ** Vocabulary of the properties *)

(** The positional encodings the specification allows: one of the two
    names, or none. *)
Definition pe_recognised (pe : option string) : Prop :=
  pe = None ∨ pe = Some "original"%string ∨ pe = Some "regular"%string.

(** The text of the configuration error for the value [pe]. *)
Definition configuration_error_text (pe : string) : string :=
  String.append "PE "
    (String.append dquote
       (String.append pe
          (String.append dquote
             " not understood. Must be one of original, regular or None."))).

(** The collaborator constructors a construction calls when none raises. *)
Definition expected_calls (d_input d_model d_output q v h k N : Z)
    (dropout chunk_mode : pyval) (pe : option string) : list call :=
  repeat (CallEncoder d_model q v h k dropout chunk_mode) (Z.to_nat N) ++
  repeat (CallDecoder d_model q v h k dropout chunk_mode) (Z.to_nat N) ++
  [CallLinear d_input d_model; CallLinear d_model d_output] ++
  match pe with
  | Some name =>
      if bool_decide (name = "original"%string ∨ name = "regular"%string)
      then [CallPE name k d_model] else []
  | None => []
  end.

(** The run returns a reference to the value [v] holds, or raises the
    exception [v] holds. *)
Definition returns (run : result loc * state) (v : result tensor) : Prop :=
  match run.1, v with
  | Ok l, Ok y => store run.2 !!! l = y
  | Error e, Error e' => e = e'
  | _, _ => False
  end.

(** Two runs end alike: references to equal tensors, or the same exception. *)
Definition same_outcome (run1 run2 : result loc * state) : Prop :=
  match run1.1, run2.1 with
  | Ok l1, Ok l2 => store run1.2 !!! l1 = store run2.2 !!! l2
  | Error e1, Error e2 => e1 = e2
  | _, _ => False
  end.

(** The parameters and the table have the shapes of a configuration. *)
Definition configured (d_input d_model d_output k : nat)
    (self : Transformer) (st : list tensor) : Prop :=
  allocated self st ∧
  shape (st !!! weight (_embedding self)) = [d_model; d_input] ∧
  shape (st !!! bias (_embedding self)) = [d_model] ∧
  shape (st !!! weight (_linear self)) = [d_output; d_model] ∧
  shape (st !!! bias (_linear self)) = [d_output] ∧
  ∀ l, _PE self = Some l → shape (st !!! l) = [k; d_model].

(** The contract of the layers: from [(batch, k, d_model)] tensors to a
    [(batch, k, d_model)] tensor, without raising. *)
Definition Encoder_shape_preserving (B k d_model : nat) (layer : Encoder) : Prop :=
  ∀ t r, shape t = [B; k; d_model] →
    ∃ t', (Encoder_forward layer t r).1 = Ok t' ∧ shape t' = [B; k; d_model].

Definition Decoder_shape_preserving (B k d_model : nat) (layer : Decoder) : Prop :=
  ∀ t m r, shape t = [B; k; d_model] → shape m = [B; k; d_model] →
    ∃ t', (Decoder_forward layer t m r).1 = Ok t' ∧ shape t' = [B; k; d_model].

(** The contract of the generators: a table of shape [(k, d_model)]. *)
Definition generators_shaped : Prop :=
  ∀ k d t, generate_original_PE k d = Ok t ∨ generate_regular_PE k d = Ok t →
    shape t = [Z.to_nat k; Z.to_nat d].

Definition and_then {A B} (x : result A) (f : A → result B) : result B :=
  match x with
  | Ok a => f a
  | Error e => Error e
  end.

(** [sigmoid(outputProjection(embedding(x) + table + table))], or
    [sigmoid(outputProjection(embedding(x)))] without a table. *)
Definition stackless_pipeline (p : parameters) (x : tensor) : result tensor :=
  match table p with
  | Some pe =>
      and_then (linear_val x (embedding_weight p) (embedding_bias p)) (λ E0,
      and_then (add_val E0 pe) (λ E1,
      and_then (add_val E1 pe) (λ E2,
      and_then (linear_val E2 (projection_weight p) (projection_bias p)) (λ P,
      Ok (sigmoid_val P)))))
  | None =>
      and_then (linear_val x (embedding_weight p) (embedding_bias p)) (λ E0,
      and_then (linear_val E0 (projection_weight p) (projection_bias p)) (λ P,
      Ok (sigmoid_val P)))
  end.

End Model.

(** ** Further vocabulary *)

Section MoreVocabulary.
Context `{Collaborators}.

(** A layer that maps tensors of shape [sh] to a tensor of shape [sh],
    without raising. *)
Definition Encoder_keeps (sh : list nat) (layer : Encoder) : Prop :=
  ∀ t r, shape t = sh →
    ∃ t', (Encoder_forward layer t r).1 = Ok t' ∧ shape t' = sh.

Definition Decoder_keeps (sh : list nat) (layer : Decoder) : Prop :=
  ∀ t m r, shape t = sh → shape m = sh →
    ∃ t', (Decoder_forward layer t m r).1 = Ok t' ∧ shape t' = sh.

(** The references an object holds: the four parameters of the two affine
    maps, and the table if there is one. *)
Definition references (self : Transformer) : list loc :=
  [weight (_embedding self); bias (_embedding self);
   weight (_linear self); bias (_linear self)] ++ option_list (_PE self).

(** The shapes of the parameters of the two affine maps. *)
Definition affine_shaped (d_input d_model d_output : nat)
    (self : Transformer) (st : list tensor) : Prop :=
  shape (st !!! weight (_embedding self)) = [d_model; d_input] ∧
  shape (st !!! bias (_embedding self)) = [d_model] ∧
  shape (st !!! weight (_linear self)) = [d_output; d_model] ∧
  shape (st !!! bias (_linear self)) = [d_output].

(** [n] calls of a constructor, each on the generator state the one before
    left; the first exception ends them. *)
Fixpoint build_layers {A} (new : rng_t → outcome string A * rng_t) (n : nat)
    (r : rng_t) : outcome string (list A) * rng_t :=
  match n with
  | 0 => (Ok [], r)
  | S n' =>
      match new r with
      | (Ok a, r1) =>
          match build_layers new n' r1 with
          | (Ok l, r2) => (Ok (a :: l), r2)
          | (Error w, r2) => (Error w, r2)
          end
      | (Error w, r1) => (Error w, r1)
      end
  end.

End MoreVocabulary.

(** ** Scalars in binary64 and in exact arithmetic *)

(** The exponential of binary64 numbers: once [e^x] is below half the
    least positive number ([x < -746]) its value is 0, once it is above
    the greatest finite number ([710 < x]) its value is infinity; in
    between it is the rounding [core] of [e^x] that the library computes. *)
Definition float_exp (core : float → float) (x : float) : float :=
  if (x <? -746)%float then 0%float
  else if (710 <? x)%float then infinity
  else core x.

(** Tensors of binary64 numbers; [torch.sigmoid] is [1 / (1 + exp(-x))]. *)
Definition binary64 (core : float → float) : Scalar :=
  {| elt := float;
     zero := 0%float;
     eadd := PrimFloat.add;
     emul := PrimFloat.mul;
     sigmoid := λ x, (1 / (1 + float_exp core (- x)))%float |}.

(** Strictly within the open interval (0, 1). *)
Definition open_unit (f : float) : Prop :=
  (0 <? f)%float = true ∧ (f <? 1)%float = true.

Definition finite_tensor (core : float → float) (t : @tensor (binary64 core))
  : Prop :=
  Forall (λ f : float, is_finite f = true) (@data (binary64 core) t).

(** The bound as it is claimed, for binary64 tensors: whatever the layers,
    on a store of finite tensors every element [forward] returns is
    strictly within (0, 1). *)
Definition open_unit_claim (core : float → float) : Prop :=
  ∀ (C : @Collaborators (binary64 core))
    (self : @Transformer (binary64 core) C) (x : loc)
    (s : @state (binary64 core) C) (out : loc),
    @allocated (binary64 core) C self (@store (binary64 core) C s) →
    Forall (finite_tensor core) (@store (binary64 core) C s) →
    (@forward (binary64 core) C self x s).1 = Ok out →
    Forall open_unit
      (@data (binary64 core)
         (@store (binary64 core) C (@forward (binary64 core) C self x s).2
            !!! out)).

(** A squashing function of exact rational arithmetic, increasing from 0
    to 1. *)
Definition Qsquash (q : Q) : Q := ((Qabs q + q + 1) / (2 * Qabs q + 2))%Q.

Definition rationals : Scalar :=
  {| elt := Q; zero := 0%Q; eadd := Qplus; emul := Qmult; sigmoid := Qsquash |}.

(** A setting without layers, generators or initialiser. *)
Definition no_layers (S : Scalar) : @Collaborators S :=
  {| rng_t := unit;
     Encoder := unit;
     Decoder := unit;
     Encoder_new := λ _ _ _ _ _ _ _ r, (Error "no layer"%string, r);
     Decoder_new := λ _ _ _ _ _ _ _ r, (Error "no layer"%string, r);
     Encoder_forward := λ _ t r, (Ok t, r);
     Decoder_forward := λ _ t _ r, (Ok t, r);
     generate_original_PE := λ _ _, Error "no generator"%string;
     generate_regular_PE := λ _ _, Error "no generator"%string;
     Linear_init := λ _ _ r, (Error "no initialiser"%string, r) |}.

(** ** A small instance

    Integer scalars, layers that add a constant (encoder) or the memory and a
    constant (decoder), tables of ones and of position indices.  The
    examples that close the file run the definitions on it. *)
Module Toy.

Definition squash (z : Z) : Z := (2 * z + 1)%Z.

Definition scalar : Scalar :=
  {| elt := Z; zero := 0%Z; eadd := Z.add; emul := Z.mul; sigmoid := squash |}.

Definition ones (n : nat) : list Z := repeat 1%Z n.

Definition shift (c : Z) (t : @tensor scalar) : @tensor scalar :=
  @Tensor scalar (@shape scalar t) (List.map (Z.add c) (@data scalar t)).

Definition mix (c : Z) (t m : @tensor scalar) : @tensor scalar :=
  @Tensor scalar (@shape scalar t)
    (imap (λ i a, (a + nth i (@data scalar m) 0 + c)%Z) (@data scalar t)).

Definition table_of (f : nat → Z) (k d : Z) : @tensor scalar :=
  @Tensor scalar [Z.to_nat k; Z.to_nat d]
    (List.map f (seq 0 (Z.to_nat k * Z.to_nat d))).

Definition collaborators : @Collaborators scalar :=
  {| rng_t := nat;
     Encoder := Z;
     Decoder := Z;
     Encoder_new := λ _ _ _ _ _ _ _ r, (Ok (Z.of_nat r), S r);
     Decoder_new := λ _ _ _ _ _ _ _ r, (Ok (Z.of_nat r), S r);
     Encoder_forward := λ c t r, (Ok (shift c t), r);
     Decoder_forward := λ c t m r, (Ok (mix c t m), r);
     generate_original_PE := λ k d, Ok (table_of Z.of_nat k d);
     generate_regular_PE := λ k d, Ok (table_of (λ _, 1%Z) k d);
     Linear_init := λ i o r,
       if ((i <? 0) || (o <? 0))%Z
       then (Error "negative dimension"%string, r)
       else (Ok (ones (Z.to_nat o * Z.to_nat i), ones (Z.to_nat o)), S r) |}.

(** An empty store, a fresh generator, nothing constructed yet. *)
Definition start : @state scalar collaborators := @State scalar collaborators [] 0 [].

(** [Transformer(3, 2, 1, 4, 4, 2, 2, 2, pe='original')] *)
Definition built :=
  @__init__ scalar collaborators 3 2 1 4 4 2 2 2
    default_dropout default_chunk_mode (Some "original"%string) start.

Definition encoders : list (@Encoder scalar collaborators) := [0%Z; 1%Z].
Definition decoders : list (@Decoder scalar collaborators) := [2%Z; 3%Z].

Definition model : @Transformer scalar collaborators :=
  @Build_Transformer scalar collaborators encoders decoders
    {| weight := 0; bias := 1 |} {| weight := 2; bias := 3 |} (Some 4).

(** One sequence of two time steps of three features, of reference 5. *)
Definition input : @tensor scalar :=
  @Tensor scalar [1; 2; 3] [1; 2; 3; 4; 5; 6]%Z.

Definition ready : @state scalar collaborators :=
  (@alloc scalar collaborators input built.2).2.

(** The same without positional encoding; the object it returns. *)
Definition plain : @Transformer scalar collaborators :=
  @Build_Transformer scalar collaborators encoders decoders
    {| weight := 0; bias := 1 |} {| weight := 2; bias := 3 |} None.

(** The same with [N = 0]. *)
Definition built0 :=
  @__init__ scalar collaborators 3 2 1 4 4 2 2 0
    default_dropout default_chunk_mode (Some "original"%string) start.

Definition model0 : @Transformer scalar collaborators :=
  @Build_Transformer scalar collaborators [] []
    {| weight := 0; bias := 1 |} {| weight := 2; bias := 3 |} (Some 4).

Definition ready0 : @state scalar collaborators :=
  (@alloc scalar collaborators input built0.2).2.

End Toy.

(** ** The same instance in training mode

    The encoder layer now draws its constant from the random generator,
    as dropout does. *)
Module Noisy.

Definition collaborators : @Collaborators Toy.scalar :=
  {| rng_t := nat;
     Encoder := Z;
     Decoder := Z;
     Encoder_new := @Encoder_new Toy.scalar Toy.collaborators;
     Decoder_new := @Decoder_new Toy.scalar Toy.collaborators;
     Encoder_forward := λ c t r, (Ok (Toy.shift (c + Z.of_nat r) t), S r);
     Decoder_forward := λ c t m r, (Ok (Toy.mix c t m), r);
     generate_original_PE := @generate_original_PE Toy.scalar Toy.collaborators;
     generate_regular_PE := @generate_regular_PE Toy.scalar Toy.collaborators;
     Linear_init := @Linear_init Toy.scalar Toy.collaborators |}.

Definition built :=
  @__init__ Toy.scalar collaborators 3 2 1 4 4 2 2 2
    default_dropout default_chunk_mode None
    (@State Toy.scalar collaborators [] 0 []).

Definition model : @Transformer Toy.scalar collaborators :=
  @Build_Transformer Toy.scalar collaborators [0%Z; 1%Z] [2%Z; 3%Z]
    {| weight := 0; bias := 1 |} {| weight := 2; bias := 3 |} None.

Definition ready : @state Toy.scalar collaborators :=
  (@alloc Toy.scalar collaborators Toy.input built.2).2.

Definition first_run := @forward Toy.scalar collaborators model 4 ready.
Definition second_run := @forward Toy.scalar collaborators model 4 first_run.2.

End Noisy.

(** ** Further inputs *)
Module MoreToy.

(** An input of three time steps, for an object built with [k = 2]. *)
Definition long_input : @tensor Toy.scalar :=
  @Tensor Toy.scalar [1; 3; 3] [1; 2; 3; 4; 5; 6; 7; 8; 9]%Z.

Definition ready_long : @state Toy.scalar Toy.collaborators :=
  (@alloc Toy.scalar Toy.collaborators long_input Toy.built.2).2.

(** The embedding of [Toy.input]. *)
Definition embedded : @tensor Toy.scalar :=
  @Tensor Toy.scalar [1; 2; 2] [7; 7; 16; 16]%Z.

(** An input without batch dimension. *)
Definition flat_input : @tensor Toy.scalar :=
  @Tensor Toy.scalar [2; 3] [1; 2; 3; 4; 5; 6]%Z.

Definition ready_flat : @state Toy.scalar Toy.collaborators :=
  (@alloc Toy.scalar Toy.collaborators flat_input Toy.built.2).2.

End MoreToy.

(** ** Layers that record their constructor's arguments *)
Module Recording.

Record layer_args := Args {
  a_d_model : Z; a_q : Z; a_v : Z; a_h : Z; a_k : Z;
  a_dropout : pyval; a_chunk_mode : pyval
}.

Definition collaborators : @Collaborators Toy.scalar :=
  {| rng_t := nat;
     Encoder := layer_args;
     Decoder := layer_args;
     Encoder_new := λ d q v h k dr cm r, (Ok (Args d q v h k dr cm), S r);
     Decoder_new := λ d q v h k dr cm r, (Ok (Args d q v h k dr cm), S r);
     Encoder_forward := λ _ t r, (Ok t, r);
     Decoder_forward := λ _ t _ r, (Ok t, r);
     generate_original_PE := @generate_original_PE Toy.scalar Toy.collaborators;
     generate_regular_PE := @generate_regular_PE Toy.scalar Toy.collaborators;
     Linear_init := @Linear_init Toy.scalar Toy.collaborators |}.

Definition start : @state Toy.scalar collaborators :=
  @State Toy.scalar collaborators [] 0 [].

(** [Transformer(3, 2, 1, 4, 5, 6, 7, 2, dropout=0.5, chunk_mode='window')] *)
Definition built :=
  @__init__ Toy.scalar collaborators 3 2 1 4 5 6 7 2
    (PyFloat 0.5%float) (PyStr "window") None start.

Definition given : layer_args :=
  Args 2 4 5 6 7 (PyFloat 0.5%float) (PyStr "window").

Definition stack : list layer_args := [given; given].

Definition model : @Transformer Toy.scalar collaborators :=
  @Build_Transformer Toy.scalar collaborators stack stack
    {| weight := 0; bias := 1 |} {| weight := 2; bias := 3 |} None.

End Recording.

(** ** A run in binary64 that reaches both ends of the interval

    No layer, no table; the embedding multiplies by 1000, the projection
    by 1; the input holds 1 and -1. *)
Module Saturating.

Section Core.
Variable core : float → float.

Definition cell (sh : list nat) (l : list float) : @tensor (binary64 core) :=
  @Tensor (binary64 core) sh l.

Definition ready : @state (binary64 core) (no_layers (binary64 core)) :=
  @State (binary64 core) (no_layers (binary64 core))
    [cell [1; 1] [1000%float]; cell [1] [0%float];
     cell [1; 1] [1%float]; cell [1] [0%float];
     cell [1; 2; 1] [1%float; (-1)%float]] tt [].

Definition model : @Transformer (binary64 core) (no_layers (binary64 core)) :=
  @Build_Transformer (binary64 core) (no_layers (binary64 core)) [] []
    {| weight := 0; bias := 1 |} {| weight := 2; bias := 3 |} None.

End Core.

End Saturating.

(** ** A run in exact arithmetic *)
Module Exact.

Definition cell (sh : list nat) (l : list Q) : @tensor rationals :=
  @Tensor rationals sh l.

Definition ready : @state rationals (no_layers rationals) :=
  @State rationals (no_layers rationals)
    [cell [1; 1] [1000%Q]; cell [1] [0%Q];
     cell [1; 1] [1%Q]; cell [1] [0%Q];
     cell [1; 2; 1] [1%Q; (-1)%Q]] tt [].

Definition model : @Transformer rationals (no_layers rationals) :=
  @Build_Transformer rationals (no_layers rationals) [] []
    {| weight := 0; bias := 1 |} {| weight := 2; bias := 3 |} None.

End Exact.
Section Properties.
Context `{Collaborators}.

Lemma bind_ok {A B} (c : M A) (k : A → M B) s a s' :
  c s = (Ok a, s') → bind c k s = k a s'.
Proof. intros E. unfold bind. now rewrite E. Qed.

Lemma bind_error {A B} (c : M A) (k : A → M B) s e s' :
  c s = (Error e, s') → bind c k s = (Error e, s').
Proof. intros E. unfold bind. now rewrite E. Qed.

Lemma prefix_lookup_total (l1 l2 : list tensor) i :
  l1 `prefix_of` l2 → i < length l1 → l2 !!! i = l1 !!! i.
Proof. intros [k ->] Hi. now apply lookup_total_app_l. Qed.

Lemma prefix_insert_ge (l1 l2 : list tensor) i t :
  l1 `prefix_of` l2 → length l1 ≤ i → l1 `prefix_of` <[i:=t]> l2.
Proof.
  intros [k ->] Hi. exists (<[i - length l1:=t]> k).
  now apply insert_app_r_alt.
Qed.

Lemma Linear_call_eq self x s :
  Linear_call self x s =
  match linear_val (store s !!! x) (store s !!! weight self) (store s !!! bias self) with
  | Ok y => (Ok (length (store s)), State (store s ++ [y]) (rng s) (trace s))
  | Error e => (Error e, s)
  end.
Proof. unfold Linear_call, bind, read, lift, alloc. now destruct linear_val. Qed.

Lemma add__eq a o s :
  add_ a o s =
  match add_val (store s !!! a) (store s !!! o) with
  | Ok y => (Ok tt, State (<[a:=y]> (store s)) (rng s) (trace s))
  | Error e => (Error e, s)
  end.
Proof. unfold add_, bind, read, lift, write. now destruct add_val. Qed.

Lemma torch_sigmoid_eq x s :
  torch_sigmoid x s =
  (Ok (length (store s)),
   State (store s ++ [sigmoid_val (store s !!! x)]) (rng s) (trace s)).
Proof. reflexivity. Qed.

Lemma Encoder_call_eq layer x s :
  Encoder_call layer x s =
  match Encoder_forward layer (store s !!! x) (rng s) with
  | (Ok y, r) => (Ok (length (store s)), State (store s ++ [y]) r (trace s))
  | (Error w, r) => (Error (Foreign w), State (store s) r (trace s))
  end.
Proof.
  unfold Encoder_call, bind, read, foreign, alloc.
  now destruct Encoder_forward as [[y|w] r].
Qed.

Lemma Decoder_call_eq layer x m s :
  Decoder_call layer x m s =
  match Decoder_forward layer (store s !!! x) (store s !!! m) (rng s) with
  | (Ok y, r) => (Ok (length (store s)), State (store s ++ [y]) r (trace s))
  | (Error w, r) => (Error (Foreign w), State (store s) r (trace s))
  end.
Proof.
  unfold Decoder_call, bind, read, foreign, alloc.
  now destruct Decoder_forward as [[y|w] r].
Qed.

Lemma encoder_loop layers : ∀ enc s,
  enc < length (store s) →
  tracks (store s) (trace s) enc
    (foldM (λ encoding layer, Encoder_call layer encoding) enc layers s)
    (encoder_stack layers (store s !!! enc) (rng s)).
Proof.
  induction layers as [|layer rest IH]; intros enc s Henc.
  - cbn. unfold tracks. cbn. repeat split; auto.
  - cbn [foldM encoder_stack]. unfold bind, vbind, vforeign.
    rewrite Encoder_call_eq.
    destruct (Encoder_forward layer (store s !!! enc) (rng s)) as [[y|w] r].
    + set (s1 := State (store s ++ [y]) r (trace s)).
      specialize (IH (length (store s)) s1).
      assert (Hl : length (store s) < length (store s1)).
      { cbn. rewrite length_app. cbn. lia. }
      specialize (IH Hl).
      assert (Hy : store s1 !!! length (store s) = y).
      { cbn. now apply list_lookup_total_middle. }
      rewrite Hy in IH. cbn [rng s1] in IH.
      destruct IH as (Hp & Ht & Hr & Hres). unfold tracks.
      split; [|split; [|split]]; auto.
      * etrans; [|exact Hp]. cbn. now apply prefix_app_r.
      * destruct (foldM _ _ _ s1) as [[l|e] s']; destruct (encoder_stack rest y r) as [[y'|e'] r']; cbn in *; auto.
        destruct Hres as [[? ?] ?]. repeat split; auto. lia.
    + unfold tracks. cbn. repeat split; auto.
Qed.

Lemma decoder_loop layers : ∀ dec mem s,
  dec < length (store s) → mem < length (store s) →
  tracks (store s) (trace s) dec
    (foldM (λ decoding layer, Decoder_call layer decoding mem) dec layers s)
    (decoder_stack layers (store s !!! dec) (store s !!! mem) (rng s)).
Proof.
  induction layers as [|layer rest IH]; intros dec mem s Hdec Hmem.
  - cbn. unfold tracks. cbn. repeat split; auto.
  - cbn [foldM decoder_stack]. unfold bind, vbind, vforeign.
    rewrite Decoder_call_eq.
    destruct (Decoder_forward layer (store s !!! dec) (store s !!! mem) (rng s))
      as [[y|w] r].
    + set (s1 := State (store s ++ [y]) r (trace s)).
      assert (Hl : length (store s) < length (store s1)).
      { cbn. rewrite length_app. cbn. lia. }
      specialize (IH (length (store s)) mem s1 Hl ltac:(lia)).
      assert (Hy : store s1 !!! length (store s) = y).
      { cbn. now apply list_lookup_total_middle. }
      assert (Hm : store s1 !!! mem = store s !!! mem).
      { cbn. now apply lookup_total_app_l. }
      rewrite Hy, Hm in IH. cbn [rng s1] in IH.
      destruct IH as (Hp & Ht & Hr & Hres). unfold tracks.
      split; [|split; [|split]]; auto.
      * etrans; [|exact Hp]. cbn. now apply prefix_app_r.
      * destruct (foldM _ _ _ s1) as [[l|e] s'];
          destruct (decoder_stack rest y _ r) as [[y'|e'] r']; cbn in *; auto.
        destruct Hres as [[? ?] ?]. repeat split; auto. lia.
    + unfold tracks. cbn. repeat split; auto.
Qed.

Lemma forward_cut self x :
  forward self x =
  bind (Linear_call (_embedding self) x)
    (λ encoding, bind (add_PE self encoding) (λ _, encode_tail self encoding)).
Proof. reflexivity. Qed.

Lemma forward_spec_cut p encs decs x :
  forward_spec p encs decs x =
  vbind (vlift (linear_val x (embedding_weight p) (embedding_bias p)))
    (λ E0, vbind (vlift (plus_PE (table p) E0)) (λ E0', encode_spec p encs decs E0')).
Proof. reflexivity. Qed.

Lemma add_PE_run self base enc s :
  allocated self base → base `prefix_of` store s →
  length base ≤ enc < length (store s) →
  match plus_PE (table (parameters_of self base)) (store s !!! enc) with
  | Ok y => ∃ s', add_PE self enc s = (Ok tt, s') ∧
                  base `prefix_of` store s' ∧ trace s' = trace s ∧
                  rng s' = rng s ∧ length (store s') = length (store s) ∧
                  store s' !!! enc = y
  | Error e => add_PE self enc s = (Error e, s)
  end.
Proof.
  intros (_ & _ & _ & _ & HPE) Hp Henc. unfold add_PE, parameters_of.
  cbn [table]. destruct (_PE self) as [pe|];
    cbn [fmap option_fmap option_map plus_PE].
  - specialize (HPE pe eq_refl). rewrite add__eq.
    rewrite (prefix_lookup_total base (store s) pe) by auto.
    destruct (add_val (store s !!! enc) (base !!! pe)) as [y|e]; auto.
    eexists. split; [reflexivity|]. cbn. repeat split; auto.
    + apply prefix_insert_ge; auto. lia.
    + apply length_insert.
    + apply list_lookup_total_insert_eq. lia.
  - exists s. repeat split; auto.
Qed.

Lemma decode_tail_tracks self base enc s :
  allocated self base → base `prefix_of` store s →
  length base ≤ enc < length (store s) →
  tracks base (trace s) (length base) (decode_tail self enc s)
    (decode_spec (parameters_of self base) (layers_decoding self)
       (store s !!! enc) (rng s)).
Proof.
  intros Hal Hp Henc.
  assert (Hw := Hal). destruct Hw as (_ & _ & Hw & Hb & _).
  pose proof (decoder_loop (layers_decoding self) enc enc s) as Hloop.
  destruct Hloop as (Hp1 & Ht1 & Hr1 & Hres); [lia..|].
  unfold decode_tail, decode_spec. cbv zeta.
  unfold bind at 1. unfold vbind at 1.
  destruct (foldM _ enc (layers_decoding self) s) as [[l|e] s1];
    destruct (decoder_stack (layers_decoding self) _ _ (rng s)) as [[DN|e'] r1];
    cbn [fst snd] in *; try contradiction.
  - destruct Hres as [[Hl1 Hl2] Hv].
    assert (Hp2 : base `prefix_of` store s1) by (etrans; eauto).
    unfold bind at 1. rewrite Linear_call_eq. unfold vbind at 1, vlift.
    rewrite Hv, !(prefix_lookup_total base (store s1)) by auto.
    cbn [projection_weight projection_bias parameters_of].
    destruct (linear_val DN _ _) as [P|e].
    + unfold bind. rewrite torch_sigmoid_eq. unfold tracks. cbn.
      rewrite !length_app. cbn. apply prefix_length in Hp2.
      repeat split; auto; try lia.
      * do 2 apply prefix_app_r. etrans; eauto.
      * rewrite list_lookup_total_middle by (rewrite length_app; cbn; lia).
        f_equal. now apply list_lookup_total_middle.
    + unfold tracks. cbn. repeat split; auto.
  - unfold tracks. cbn. repeat split; auto. etrans; eauto.
Qed.

Lemma encode_tail_tracks self base enc s :
  allocated self base → base `prefix_of` store s →
  length base ≤ enc < length (store s) →
  tracks base (trace s) (length base) (encode_tail self enc s)
    (encode_spec (parameters_of self base) (layers_encoding self)
       (layers_decoding self) (store s !!! enc) (rng s)).
Proof.
  intros Hal Hp Henc.
  pose proof (encoder_loop (layers_encoding self) enc s) as Hloop.
  destruct Hloop as (Hp1 & Ht1 & Hr1 & Hres); [lia|].
  unfold encode_tail, encode_spec.
  unfold bind at 1. unfold vbind at 1.
  destruct (foldM _ enc (layers_encoding self) s) as [[l|e] s1];
    destruct (encoder_stack (layers_encoding self) _ (rng s)) as [[M0|e'] r1];
    cbn [fst snd] in *; try contradiction.
  - destruct Hres as [[Hl1 Hl2] Hv].
    assert (Hp2 : base `prefix_of` store s1) by (etrans; eauto).
    pose proof (add_PE_run self base l s1 Hal Hp2 ltac:(lia)) as Hadd.
    rewrite Hv in Hadd. unfold bind at 1. unfold vbind at 1, vlift.
    destruct (plus_PE _ M0) as [Mem|e].
    + destruct Hadd as (s2 & -> & Hp3 & Ht3 & Hr3 & Hlen & Hval).
      pose proof (decode_tail_tracks self base l s2 Hal Hp3 ltac:(lia)) as Hd.
      rewrite Hval, Ht3, Hr3, Ht1, Hr1 in Hd. exact Hd.
    + rewrite Hadd. unfold tracks. cbn. repeat split; auto.
  - unfold tracks. cbn. repeat split; auto. etrans; eauto.
Qed.

Lemma forward_tracks self x s :
  allocated self (store s) →
  tracks (store s) (trace s) (length (store s)) (forward self x s)
    (forward_spec (parameters_of self (store s)) (layers_encoding self)
       (layers_decoding self) (store s !!! x) (rng s)).
Proof.
  intros Hal. rewrite forward_cut, forward_spec_cut.
  unfold bind at 1. rewrite Linear_call_eq. unfold vbind at 1, vlift.
  cbn [embedding_weight embedding_bias parameters_of].
  destruct (linear_val _ _ _) as [E0|e].
  - set (s1 := State (store s ++ [E0]) (rng s) (trace s)).
    assert (Hp1 : store s `prefix_of` store s1) by (cbn; now apply prefix_app_r).
    assert (Hl1 : length (store s) ≤ length (store s) < length (store s1)).
    { cbn. rewrite length_app. cbn. lia. }
    pose proof (add_PE_run self (store s) (length (store s)) s1 Hal Hp1 Hl1) as Hadd.
    assert (Hv : store s1 !!! length (store s) = E0).
    { cbn. now apply list_lookup_total_middle. }
    rewrite Hv in Hadd. unfold bind at 1. unfold vbind at 1.
    fold (parameters_of self (store s)).
    destruct (plus_PE _ E0) as [E0'|e].
    + destruct Hadd as (s2 & -> & Hp2 & Ht2 & Hr2 & Hlen & Hval).
      pose proof (encode_tail_tracks self (store s) (length (store s)) s2
                    Hal Hp2 ltac:(lia)) as He.
      rewrite Hval, Ht2, Hr2 in He. exact He.
    + rewrite Hadd. unfold tracks. cbn. repeat split; auto.
  - unfold tracks. cbn. repeat split; auto.
Qed.
End Properties.

(** ** The forward pass: data flow, frame, determinism *)

Section Forward.
Context `{Collaborators}.

Lemma allocated_prefix self (st st' : list tensor) :
  allocated self st → st `prefix_of` st' → allocated self st'.
Proof.
  intros (H1 & H2 & H3 & H4 & H5) Hp%prefix_length.
  repeat split; try lia. intros l Hl. specialize (H5 l Hl). lia.
Qed.

Lemma parameters_of_prefix self (st st' : list tensor) :
  allocated self st → st `prefix_of` st' →
  parameters_of self st' = parameters_of self st.
Proof.
  intros (H1 & H2 & H3 & H4 & H5) Hp. unfold parameters_of.
  rewrite !(prefix_lookup_total st st') by auto.
  destruct (_PE self) as [l|]; cbn; [|reflexivity].
  now rewrite (prefix_lookup_total st st') by auto.
Qed.

Lemma encoder_stack_deterministic layers :
  Forall Encoder_deterministic layers →
  ∀ t r r', encoder_stack layers t r = ((encoder_stack layers t r').1, r).
Proof.
  induction 1 as [|layer rest Hd _ IH]; intros t r r'; [reflexivity|].
  cbn [encoder_stack]. unfold vbind, vforeign.
  rewrite (Hd t r r').
  destruct (Encoder_forward layer t r') as [[y|w] r1]; cbn; [|reflexivity].
  apply IH.
Qed.

Lemma decoder_stack_deterministic layers :
  Forall Decoder_deterministic layers →
  ∀ d m r r', decoder_stack layers d m r = ((decoder_stack layers d m r').1, r).
Proof.
  induction 1 as [|layer rest Hd _ IH]; intros d m r r'; [reflexivity|].
  cbn [decoder_stack]. unfold vbind, vforeign.
  rewrite (Hd d m r r').
  destruct (Decoder_forward layer d m r') as [[y|w] r1]; cbn; [|reflexivity].
  apply IH.
Qed.

Lemma forward_spec_deterministic p encs decs x :
  Forall Encoder_deterministic encs → Forall Decoder_deterministic decs →
  ∀ r r', forward_spec p encs decs x r = ((forward_spec p encs decs x r').1, r).
Proof.
  intros He Hd r r'. unfold forward_spec, vbind, vlift, vret.
  destruct (linear_val x _ _) as [E0|e]; [|reflexivity].
  destruct (plus_PE _ E0) as [E0'|e]; [|reflexivity].
  rewrite (encoder_stack_deterministic encs He E0' r r').
  destruct (encoder_stack encs E0' r') as [[M0|e] r1]; cbn [fst]; [|reflexivity].
  destruct (plus_PE _ M0) as [Mem|e]; [|reflexivity].
  rewrite (decoder_stack_deterministic decs Hd Mem Mem r r1).
  destruct (decoder_stack decs Mem Mem r1) as [[DN|e] r2]; cbn [fst]; [|reflexivity].
  now destruct (linear_val DN _ _).
Qed.

Lemma tracks_returns base tr lo run v :
  tracks base tr lo run v → returns run v.1.
Proof.
  intros (_ & _ & _ & Hres). unfold returns.
  destruct run.1, v.1; auto. now destruct Hres.
Qed.

(** C1.  On every input tensor, [forward] returns what the composition
    [forward_spec] computes from the values of the parameters and of the
    input: the embedding, plus the table if there is one, through the
    encoder layers in sequence, plus the table a second time, through the
    decoder layers in sequence, each with the same memory, through the
    output projection and the sigmoid.  It raises exactly when the
    composition does, and leaves the random generator as the composition
    does. *)
Theorem forward_is_composition self x s :
  allocated self (store s) →
  let v := forward_spec (parameters_of self (store s)) (layers_encoding self)
             (layers_decoding self) (store s !!! x) (rng s) in
  returns (forward self x s) v.1 ∧ rng (forward self x s).2 = v.2.
Proof.
  intros Hal v. pose proof (forward_tracks self x s Hal) as Ht.
  split; [eapply tracks_returns; eauto|]. now destruct Ht as (_ & _ & Hr & _).
Qed.

(** C7.  [forward] changes no tensor that was live when it was called: the
    weights and biases, the positional table and the input keep their
    values; no constructor is called; the reference returned is to a
    tensor created by the call; the random generator moves only if a layer
    moves it.  So both in-place additions wrote to tensors created during
    the call. *)
Theorem forward_frame self x s :
  allocated self (store s) →
  let run := forward self x s in
  (∀ l t, store s !! l = Some t → store run.2 !! l = Some t) ∧
  parameters_of self (store run.2) = parameters_of self (store s) ∧
  trace run.2 = trace s ∧
  (∀ out, run.1 = Ok out → length (store s) ≤ out < length (store run.2)) ∧
  (Forall Encoder_deterministic (layers_encoding self) →
   Forall Decoder_deterministic (layers_decoding self) →
   rng run.2 = rng s).
Proof.
  intros Hal run. destruct (forward_tracks self x s Hal) as (Hp & Ht & Hr & Hres).
  fold run in Hp, Ht, Hr, Hres. split; [|split; [|split; [|split]]].
  - intros l t Hl. eapply prefix_lookup_Some; eauto.
  - now apply parameters_of_prefix.
  - exact Ht.
  - intros out Hout. rewrite Hout in Hres.
    destruct (forward_spec _ _ _ _ _).1; [|contradiction]. apply Hres.
  - intros He Hd. rewrite Hr.
    now rewrite (forward_spec_deterministic _ _ _ _ He Hd (rng s) (rng s)).
Qed.

Lemma forward_pure self x s x' s' :
  Forall Encoder_deterministic (layers_encoding self) →
  Forall Decoder_deterministic (layers_decoding self) →
  allocated self (store s) → allocated self (store s') →
  parameters_of self (store s) = parameters_of self (store s') →
  store s !!! x = store s' !!! x' →
  same_outcome (forward self x s) (forward self x' s').
Proof.
  intros He Hd Hal Hal' Hpar Hx.
  pose proof (tracks_returns _ _ _ _ _ (forward_tracks self x s Hal)) as R1.
  pose proof (tracks_returns _ _ _ _ _ (forward_tracks self x' s' Hal')) as R2.
  rewrite <- Hpar, <- Hx in R2.
  rewrite (forward_spec_deterministic _ _ _ _ He Hd (rng s') (rng s)) in R2.
  cbn [fst] in R2. unfold returns in R1, R2. unfold same_outcome.
  destruct (forward self x s).1, (forward self x' s').1,
    (forward_spec _ _ _ _ (rng s)).1; try contradiction; congruence.
Qed.

(** C8.  When no layer draws from the random generator (dropout off,
    evaluation mode), [forward] is a function of the values of its input
    and of the parameters: two calls in any two states that agree on these
    values end alike; in particular a second call on the same input, right
    after the first, returns an equal tensor. *)
Theorem forward_deterministic self :
  Forall Encoder_deterministic (layers_encoding self) →
  Forall Decoder_deterministic (layers_decoding self) →
  (∀ x s, allocated self (store s) → x < length (store s) →
     same_outcome (forward self x s) (forward self x (forward self x s).2)) ∧
  (∀ x s x' s', allocated self (store s) → allocated self (store s') →
     parameters_of self (store s) = parameters_of self (store s') →
     store s !!! x = store s' !!! x' →
     same_outcome (forward self x s) (forward self x' s')).
Proof.
  intros He Hd. split.
  - intros x s Hal Hx.
    destruct (forward_tracks self x s Hal) as (Hp & _).
    apply forward_pure; auto.
    + eapply allocated_prefix; eauto.
    + symmetry. now apply parameters_of_prefix.
    + symmetry. now apply prefix_lookup_total.
  - intros x s x' s'. now apply forward_pure.
Qed.

End Forward.

(** ** Construction *)

Section Construction.
Context `{Collaborators}.

Lemma pe_lookup_original :
  pe_lookup "original" pe_functions = Some generate_original_PE.
Proof. reflexivity. Qed.

Lemma pe_lookup_regular :
  pe_lookup "regular" pe_functions = Some generate_regular_PE.
Proof. reflexivity. Qed.

Lemma pe_lookup_other name :
  name ≠ "original"%string → name ≠ "regular"%string →
  pe_lookup name pe_functions = None.
Proof.
  intros H1 H2. cbn.
  destruct (String.eqb_spec name "original"); [contradiction|].
  destruct (String.eqb_spec name "regular"); [contradiction|]. reflexivity.
Qed.

Lemma pe_message_text name : pe_message name = configuration_error_text name.
Proof. reflexivity. Qed.

Lemma not_recognised name :
  ¬ pe_recognised (Some name) ↔ name ≠ "original"%string ∧ name ≠ "regular"%string.
Proof.
  unfold pe_recognised. split.
  - intros Hn. split; intros ->; apply Hn; auto.
  - intros [H1 H2] [?|[?|?]]; congruence.
Qed.

(** The table step alone (lines 85-96). *)
Lemma init_PE_run k d_model pe s :
  match pe with
  | None => init_PE k d_model pe s = (Ok None, s)
  | Some name =>
      match pe_lookup name pe_functions with
      | Some gen =>
          (name = "original"%string ∨ name = "regular"%string) ∧
          match gen k d_model with
          | Ok t => init_PE k d_model pe s =
                    (Ok (Some (length (store s))),
                     State (store s ++ [t]) (rng s)
                       (trace s ++ [CallPE name k d_model]))
          | Error w => init_PE k d_model pe s =
                       (Error (Foreign w),
                        State (store s) (rng s)
                          (trace s ++ [CallPE name k d_model]))
          end
      | None =>
          ¬ pe_recognised pe ∧
          init_PE k d_model pe s =
          (Error (NameError (configuration_error_text name)), s)
      end
  end.
Proof.
  destruct pe as [name|]; [|reflexivity].
  unfold init_PE. cbn [pe_lookup pe_functions].
  destruct (String.eqb_spec name "original") as [->|H1].
  { split; [auto|]. unfold nn_Parameter_PE, bind, log, foreign, alloc. cbn.
    now destruct (generate_original_PE k d_model). }
  destruct (String.eqb_spec name "regular") as [->|H2].
  { split; [auto|]. unfold nn_Parameter_PE, bind, log, foreign, alloc. cbn.
    now destruct (generate_regular_PE k d_model). }
  split; [|reflexivity]. now apply not_recognised.
Qed.

(** [nn.Linear(i, o)]: two new tensors, or the initialiser's exception. *)
Lemma nn_Linear_run i o s :
  match Linear_init i o (rng s) with
  | (Ok wb, r) =>
      nn_Linear i o s =
      (Ok {| weight := length (store s); bias := S (length (store s)) |},
       State (store s ++ [Tensor [Z.to_nat o; Z.to_nat i] wb.1;
                          Tensor [Z.to_nat o] wb.2])
         r (trace s ++ [CallLinear i o]))
  | (Error w, r) =>
      nn_Linear i o s =
      (Error (Foreign w), State (store s) r (trace s ++ [CallLinear i o]))
  end.
Proof.
  unfold nn_Linear, bind, log, foreign, alloc. cbn.
  destruct (Linear_init i o (rng s)) as [[wb|w] r]; [|reflexivity].
  cbn. rewrite length_app, <- app_assoc. cbn.
  now replace (length (store s) + 1) with (S (length (store s))) by lia.
Qed.

Lemma ctor_step {A} (new : rng_t → outcome string A * rng_t) (c : call) s :
  bind (log c) (λ _, foreign new) s =
  match new (rng s) with
  | (Ok a, r) => (Ok a, State (store s) r (trace s ++ [c]))
  | (Error w, r) => (Error (Foreign w), State (store s) r (trace s ++ [c]))
  end.
Proof. unfold bind, log, foreign. cbn. now destruct (new (rng s)) as [[a|w] r]. Qed.

(** A stack of [n] layers: [n] constructor calls with the same arguments,
    no tensor allocated; the only exception is a constructor's. *)
Lemma replicateM_ctor {A} (new : rng_t → outcome string A * rng_t) (c : call) n :
  ∀ s,
  let run := replicateM n (bind (log c) (λ _, foreign new)) s in
  store run.2 = store s ∧
  match run.1 with
  | Ok l => length l = n ∧ trace run.2 = trace s ++ repeat c n
  | Error e => ∃ w, e = Foreign w
  end.
Proof.
  induction n as [|n IH]; intros s; cbn zeta.
  - cbn. split; [reflexivity|]. split; [reflexivity|]. now rewrite app_nil_r.
  - cbn [replicateM]. pose proof (ctor_step new c s) as Hc.
    destruct (new (rng s)) as [[a|w] r].
    + rewrite (bind_ok _ _ _ _ _ Hc).
      specialize (IH (State (store s) r (trace s ++ [c]))). cbn zeta in IH.
      destruct IH as [Hst IH].
      destruct (replicateM n _ _) as [[l|e] s'] eqn:Hrun.
      * rewrite (bind_ok _ _ _ _ _ Hrun). cbn in *. destruct IH as [Hl Ht].
        repeat split; auto. rewrite Ht, <- app_assoc. reflexivity.
      * rewrite (bind_error _ _ _ _ _ Hrun). cbn in *. auto.
    + rewrite (bind_error _ _ _ _ _ Hc). cbn. eauto.
Qed.

Lemma init_stacks_run d_model q v h k N dropout chunk_mode s :
  let run := init_stacks d_model q v h k N dropout chunk_mode s in
  store run.2 = store s ∧
  match run.1 with
  | Ok (encs, decs) =>
      length encs = Z.to_nat N ∧ length decs = Z.to_nat N ∧
      trace run.2 =
        trace s ++
        repeat (CallEncoder d_model q v h k dropout chunk_mode) (Z.to_nat N) ++
        repeat (CallDecoder d_model q v h k dropout chunk_mode) (Z.to_nat N)
  | Error e => ∃ w, e = Foreign w
  end.
Proof.
  cbn zeta. unfold init_stacks, Encoder_ctor, Decoder_ctor.
  pose proof (replicateM_ctor (Encoder_new d_model q v h k dropout chunk_mode)
    (CallEncoder d_model q v h k dropout chunk_mode) (Z.to_nat N) s) as He.
  cbn zeta in He. destruct He as [Hs1 He].
  destruct (replicateM (Z.to_nat N) _ s) as [[encs|e] s1] eqn:Hrun1; cbn in Hs1, He.
  - rewrite (bind_ok _ _ _ _ _ Hrun1).
    pose proof (replicateM_ctor (Decoder_new d_model q v h k dropout chunk_mode)
      (CallDecoder d_model q v h k dropout chunk_mode) (Z.to_nat N) s1) as Hd.
    cbn zeta in Hd. destruct Hd as [Hs2 Hd].
    destruct (replicateM (Z.to_nat N) _ s1) as [[decs|e] s2] eqn:Hrun2; cbn in Hs2, Hd.
    + rewrite (bind_ok _ _ _ _ _ Hrun2). cbn. destruct He as [Hl1 Ht1].
      destruct Hd as [Hl2 Ht2]. repeat split; try congruence.
      rewrite Ht2, Ht1, <- app_assoc. reflexivity.
    + rewrite (bind_error _ _ _ _ _ Hrun2). cbn. split; [congruence|auto].
  - rewrite (bind_error _ _ _ _ _ Hrun1). cbn. auto.
Qed.

Lemma init_split d_input d_model d_output q v h k N dropout chunk_mode pe s :
  __init__ d_input d_model d_output q v h k N dropout chunk_mode pe s =
  match init_stacks d_model q v h k N dropout chunk_mode s with
  | (Ok (encs, decs), s1) => init_rest d_input d_model d_output k pe encs decs s1
  | (Error e, s1) => (Error e, s1)
  end.
Proof.
  unfold __init__, init_stacks, init_rest.
  destruct (replicateM (Z.to_nat N) (Encoder_ctor d_model q v h k dropout chunk_mode) s)
    as [[encs|e] s1] eqn:Hrun1.
  - rewrite !(bind_ok _ _ _ _ _ Hrun1).
    destruct (replicateM (Z.to_nat N) (Decoder_ctor d_model q v h k dropout chunk_mode) s1)
      as [[decs|e] s2] eqn:Hrun2.
    + now rewrite !(bind_ok _ _ _ _ _ Hrun2).
    + now rewrite !(bind_error _ _ _ _ _ Hrun2).
  - now rewrite !(bind_error _ _ _ _ _ Hrun1).
Qed.

(** Lines 82-96 step by step. *)
Lemma init_rest_run d_input d_model d_output k pe encs decs s :
  let run := init_rest d_input d_model d_output k pe encs decs s in
  let two := [CallLinear d_input d_model; CallLinear d_model d_output] in
  match Linear_init d_input d_model (rng s) with
  | (Error w, r1) => run.1 = Error (Foreign w)
  | (Ok wb1, r1) =>
  match Linear_init d_model d_output r1 with
  | (Error w, r2) => run.1 = Error (Foreign w)
  | (Ok wb2, r2) =>
      let n0 := length (store s) in
      let s3 := State (store s ++ affine_parameters d_input d_model d_output wb1 wb2)
                  r2 (trace s ++ two) in
      let built tbl :=
        {| layers_encoding := encs; layers_decoding := decs;
           _embedding := {| weight := n0; bias := S n0 |};
           _linear := {| weight := S (S n0); bias := S (S (S n0)) |};
           _PE := tbl |} in
      match init_PE k d_model pe s3 with
      | (Ok tbl, s4) => run = (Ok (built tbl), s4)
      | (Error e, s4) => run = (Error e, s4)
      end
  end
  end.
Proof.
  cbn zeta. unfold init_rest.
  pose proof (nn_Linear_run d_input d_model s) as H1.
  destruct (Linear_init d_input d_model (rng s)) as [[wb1|w] r1].
  2:{ now rewrite (bind_error _ _ _ _ _ H1). }
  rewrite (bind_ok _ _ _ _ _ H1).
  match type of H1 with _ = (_, ?s1) => set (s1' := s1) in * end.
  pose proof (nn_Linear_run d_model d_output s1') as H2. cbn [rng s1'] in H2.
  destruct (Linear_init d_model d_output r1) as [[wb2|w] r2].
  2:{ now rewrite (bind_error _ _ _ _ _ H2). }
  rewrite (bind_ok _ _ _ _ _ H2). cbn [store trace s1'] in *.
  rewrite length_app, <- !app_assoc. cbn [length app].
  replace (length (store s) + 2) with (S (S (length (store s)))) by lia.
  unfold affine_parameters.
  destruct (init_PE k d_model pe _) as [[tbl|e] s4] eqn:HPE.
  - now rewrite (bind_ok _ _ _ _ _ HPE).
  - now rewrite (bind_error _ _ _ _ _ HPE).
Qed.

(** Every way a construction can end. *)
Lemma init_outcome d_input d_model d_output q v h k N dropout chunk_mode pe s :
  let run := __init__ d_input d_model d_output q v h k N dropout chunk_mode pe s in
  let calls := expected_calls d_input d_model d_output q v h k N
                 dropout chunk_mode pe in
  match run.1 with
  | Ok self =>
      pe_recognised pe ∧
      length (layers_encoding self) = Z.to_nat N ∧
      length (layers_decoding self) = Z.to_nat N ∧
      trace run.2 = trace s ++ calls
  | Error (NameError msg) =>
      ¬ pe_recognised pe ∧
      (∃ name, pe = Some name ∧ msg = configuration_error_text name) ∧
      trace run.2 = trace s ++ calls
  | Error RuntimeError => False
  | Error (Foreign w) => True
  end.
Proof.
  cbn zeta. rewrite init_split.
  pose proof (init_stacks_run d_model q v h k N dropout chunk_mode s) as Hst.
  cbn zeta in Hst. destruct Hst as [_ Hst].
  destruct (init_stacks d_model q v h k N dropout chunk_mode s)
    as [[[encs decs]|e] s1]; cbn [fst snd] in Hst.
  2:{ destruct Hst as [w ->]. exact I. }
  destruct Hst as (Hl1 & Hl2 & Ht1).
  pose proof (init_rest_run d_input d_model d_output k pe encs decs s1) as Hr.
  cbn zeta in Hr.
  destruct (Linear_init d_input d_model (rng s1)) as [[wb1|w] r1].
  2:{ now rewrite Hr. }
  destruct (Linear_init d_model d_output r1) as [[wb2|w] r2].
  2:{ now rewrite Hr. }
  match type of Hr with context [init_PE _ _ _ ?s3] =>
    pose proof (init_PE_run k d_model pe s3) as HPE; set (s3' := s3) in * end.
  unfold expected_calls.
  destruct pe as [name|].
  - destruct (pe_lookup name pe_functions) as [gen|].
    + destruct HPE as [Hname HPE].
      rewrite (bool_decide_eq_true_2 _ Hname).
      destruct (gen k d_model) as [t|w]; rewrite HPE in Hr; rewrite Hr; cbn; [|exact I].
      rewrite Ht1, <- !app_assoc. repeat split; auto.
      unfold pe_recognised. destruct Hname as [-> | ->]; auto.
    + destruct HPE as [Hnot HPE]. rewrite HPE in Hr. rewrite Hr. cbn.
      apply not_recognised in Hnot as Hne.
      rewrite bool_decide_eq_false_2 by (intros [?|?]; tauto).
      rewrite Ht1, <- !app_assoc. repeat split; eauto.
  - rewrite HPE in Hr. rewrite Hr. cbn.
    rewrite Ht1, <- !app_assoc. repeat split; auto. now left.
Qed.

(** The table step for a name of the dictionary. *)
Lemma init_PE_named k d_model name gen s :
  pe_lookup name pe_functions = Some gen →
  init_PE k d_model (Some name) s =
  match gen k d_model with
  | Ok t => (Ok (Some (length (store s))),
             State (store s ++ [t]) (rng s) (trace s ++ [CallPE name k d_model]))
  | Error w => (Error (Foreign w),
                State (store s) (rng s) (trace s ++ [CallPE name k d_model]))
  end.
Proof.
  intros Hlook. pose proof (init_PE_run k d_model (Some name) s) as HPE.
  cbn beta iota in HPE. rewrite Hlook in HPE. destruct HPE as [_ HPE].
  now destruct (gen k d_model).
Qed.

(** C4.  Whether a construction raises of its own accord is decided by [pe]
    alone.  With [pe] absent, "original" or "regular" it never raises the
    configuration error; once the layers and the two affine maps are
    built, it returns the object without a table for an absent [pe], and
    for "original" and "regular" it returns the object with the table
    that the generator of that name returned, and fails only if this
    generator raised, with the generator's exception.  With any other
    [pe] it never returns an object, whatever the collaborators do, and
    once the layers and the affine maps are built it raises [NameError]
    with the text
    [PE "<pe>" not understood. Must be one of original, regular or None.] *)
Theorem init_checks_pe d_input d_model d_output q v h k N dropout chunk_mode pe s :
  let run := __init__ d_input d_model d_output q v h k N dropout chunk_mode pe s in
  (pe_recognised pe → ∀ msg, run.1 ≠ Error (NameError msg)) ∧
  (¬ pe_recognised pe → ∀ self, run.1 ≠ Ok self) ∧
  (∀ encs decs emb lin s1 s2 s3,
     init_stacks d_model q v h k N dropout chunk_mode s = (Ok (encs, decs), s1) →
     nn_Linear d_input d_model s1 = (Ok emb, s2) →
     nn_Linear d_model d_output s2 = (Ok lin, s3) →
     let built tbl :=
       {| layers_encoding := encs; layers_decoding := decs;
          _embedding := emb; _linear := lin; _PE := tbl |} in
     let with_table name (generated : outcome string tensor) :=
       match generated with
       | Ok t =>
           run = (Ok (built (Some (length (store s3)))),
                  State (store s3 ++ [t]) (rng s3)
                    (trace s3 ++ [CallPE name k d_model]))
       | Error w =>
           run = (Error (Foreign w),
                  State (store s3) (rng s3)
                    (trace s3 ++ [CallPE name k d_model]))
       end in
     match pe with
     | None => run = (Ok (built None), s3)
     | Some name =>
         if bool_decide (name = "original"%string)
         then with_table name (generate_original_PE k d_model)
         else if bool_decide (name = "regular"%string)
         then with_table name (generate_regular_PE k d_model)
         else run = (Error (NameError (configuration_error_text name)), s3)
     end).
Proof.
  cbn zeta.
  pose proof (init_outcome d_input d_model d_output q v h k N dropout
                chunk_mode pe s) as Hout. cbn zeta in Hout.
  split; [|split].
  - intros Hrec msg Hrun. rewrite Hrun in Hout. now destruct Hout as [Hn _].
  - intros Hn self Hrun. rewrite Hrun in Hout. now destruct Hout as [Hrec _].
  - intros encs decs emb lin s1 s2 s3 Hst H1 H2. clear Hout.
    unfold __init__. unfold init_stacks in Hst.
    destruct (replicateM (Z.to_nat N)
                (Encoder_ctor d_model q v h k dropout chunk_mode) s)
      as [[encs'|e] s1'] eqn:Hrun1.
    2:{ rewrite (bind_error _ _ _ _ _ Hrun1) in Hst. discriminate. }
    rewrite (bind_ok _ _ _ _ _ Hrun1) in Hst. rewrite (bind_ok _ _ _ _ _ Hrun1).
    destruct (replicateM (Z.to_nat N)
                (Decoder_ctor d_model q v h k dropout chunk_mode) s1')
      as [[decs'|e] s2'] eqn:Hrun2.
    2:{ rewrite (bind_error _ _ _ _ _ Hrun2) in Hst. discriminate. }
    rewrite (bind_ok _ _ _ _ _ Hrun2) in Hst. rewrite (bind_ok _ _ _ _ _ Hrun2).
    injection Hst as -> -> ->.
    rewrite (bind_ok _ _ _ _ _ H1), (bind_ok _ _ _ _ _ H2).
    destruct pe as [name|].
    + destruct (decide (name = "original"%string)) as [->|Hno].
      { rewrite bool_decide_eq_true_2 by reflexivity.
        pose proof (init_PE_named k d_model _ _ s3 pe_lookup_original) as HPE.
        destruct (generate_original_PE k d_model) as [t|w].
        - now rewrite (bind_ok _ _ _ _ _ HPE).
        - now rewrite (bind_error _ _ _ _ _ HPE). }
      rewrite (bool_decide_eq_false_2 _ Hno).
      destruct (decide (name = "regular"%string)) as [->|Hnr].
      { rewrite bool_decide_eq_true_2 by reflexivity.
        pose proof (init_PE_named k d_model _ _ s3 pe_lookup_regular) as HPE.
        destruct (generate_regular_PE k d_model) as [t|w].
        - now rewrite (bind_ok _ _ _ _ _ HPE).
        - now rewrite (bind_error _ _ _ _ _ HPE). }
      rewrite (bool_decide_eq_false_2 _ Hnr).
      pose proof (init_PE_run k d_model (Some name) s3) as HPE.
      cbn beta iota in HPE. rewrite pe_lookup_other in HPE by assumption.
      destruct HPE as [_ HPE]. now rewrite (bind_error _ _ _ _ _ HPE).
    + pose proof (init_PE_run k d_model None s3) as HPE. cbn beta iota in HPE.
      now rewrite (bind_ok _ _ _ _ _ HPE).
Qed.

(** A stack is what [n] calls of the constructor return, each call on the
    generator state the one before left. *)
Lemma replicateM_build {A} (new : rng_t → outcome string A * rng_t) (c : call) n :
  ∀ s,
  let run := replicateM n (bind (log c) (λ _, foreign new)) s in
  rng run.2 = (build_layers new n (rng s)).2 ∧
  match (build_layers new n (rng s)).1 with
  | Ok l => run.1 = Ok l
  | Error w => run.1 = Error (Foreign w)
  end.
Proof.
  induction n as [|n IH]; intros s; cbn zeta; [cbn; auto|].
  cbn [replicateM build_layers]. pose proof (ctor_step new c s) as Hc.
  destruct (new (rng s)) as [[a|w] r].
  - rewrite (bind_ok _ _ _ _ _ Hc).
    specialize (IH (State (store s) r (trace s ++ [c]))). cbn zeta in IH.
    cbn [rng] in IH. destruct IH as [Hr IH].
    destruct (replicateM n _ _) as [[l|e] s'] eqn:Hrun.
    + rewrite (bind_ok _ _ _ _ _ Hrun). cbn [fst snd] in *.
      destruct (build_layers new n r) as [[l'|w] r']; cbn [fst snd] in *.
      * split; [exact Hr|]. cbn. congruence.
      * discriminate.
    + rewrite (bind_error _ _ _ _ _ Hrun). cbn [fst snd] in *.
      destruct (build_layers new n r) as [[l'|w] r']; cbn [fst snd] in *.
      * discriminate.
      * split; [exact Hr|exact IH].
  - rewrite (bind_error _ _ _ _ _ Hc). cbn. auto.
Qed.

(** The layers a construction holds, and the layer exception it ends with. *)
Lemma init_layers d_input d_model d_output q v h k N dropout chunk_mode pe s :
  let run := __init__ d_input d_model d_output q v h k N dropout chunk_mode pe s in
  let eb := build_layers (Encoder_new d_model q v h k dropout chunk_mode)
              (Z.to_nat N) (rng s) in
  match eb.1 with
  | Error w => run.1 = Error (Foreign w)
  | Ok encs =>
      let db := build_layers (Decoder_new d_model q v h k dropout chunk_mode)
                  (Z.to_nat N) eb.2 in
      match db.1 with
      | Error w => run.1 = Error (Foreign w)
      | Ok decs =>
          ∀ self, run.1 = Ok self →
            layers_encoding self = encs ∧ layers_decoding self = decs
      end
  end.
Proof.
  cbn zeta. rewrite init_split. unfold init_stacks, Encoder_ctor, Decoder_ctor.
  pose proof (replicateM_build (Encoder_new d_model q v h k dropout chunk_mode)
    (CallEncoder d_model q v h k dropout chunk_mode) (Z.to_nat N) s) as He.
  cbn zeta in He. destruct He as [Hr1 He].
  destruct (replicateM (Z.to_nat N) _ s) as [[encs|e] s1] eqn:Hrun1;
    cbn [fst snd] in Hr1, He.
  - rewrite (bind_ok _ _ _ _ _ Hrun1).
    destruct (build_layers (Encoder_new d_model q v h k dropout chunk_mode)
                (Z.to_nat N) (rng s)) as [[encs'|w] r1]; cbn [fst snd] in *;
      [|discriminate].
    injection He as ->. subst r1.
    pose proof (replicateM_build (Decoder_new d_model q v h k dropout chunk_mode)
      (CallDecoder d_model q v h k dropout chunk_mode) (Z.to_nat N) s1) as Hd.
    cbn zeta in Hd. destruct Hd as [Hr2 Hd].
    destruct (replicateM (Z.to_nat N) _ s1) as [[decs|e] s2] eqn:Hrun2;
      cbn [fst snd] in Hr2, Hd.
    + rewrite (bind_ok _ _ _ _ _ Hrun2). cbn [ret].
      destruct (build_layers (Decoder_new d_model q v h k dropout chunk_mode)
                  (Z.to_nat N) (rng s1)) as [[decs'|w] r2]; cbn [fst snd] in *;
        [|discriminate].
      injection Hd as ->. intros self Hrun.
      pose proof (init_rest_run d_input d_model d_output k pe encs' decs' s2) as Hr.
      cbn zeta in Hr.
      destruct (Linear_init d_input d_model (rng s2)) as [[wb1|w] r3];
        [|rewrite Hr in Hrun; discriminate].
      destruct (Linear_init d_model d_output r3) as [[wb2|w] r4];
        [|rewrite Hr in Hrun; discriminate].
      destruct (init_PE k d_model pe _) as [[tbl|e] s4]; rewrite Hr in Hrun;
        [|discriminate].
      injection Hrun as <-. auto.
    + rewrite (bind_error _ _ _ _ _ Hrun2).
      destruct (build_layers (Decoder_new d_model q v h k dropout chunk_mode)
                  (Z.to_nat N) (rng s1)) as [[decs'|w] r2]; cbn [fst snd] in *;
        [discriminate|]. now injection Hd as ->.
  - rewrite (bind_error _ _ _ _ _ Hrun1).
    destruct (build_layers (Encoder_new d_model q v h k dropout chunk_mode)
                (Z.to_nat N) (rng s)) as [[encs'|w] r1]; cbn [fst snd] in *;
      [discriminate|]. now injection He as ->.
Qed.

(** C10.  Of its own accord a construction raises for [pe] only: every
    exception it ends with is a collaborator's, or is the configuration
    error and then [pe] is not recognised; no value of [dropout],
    [chunk_mode], [N] or of a width changes that.  The layers it holds
    are what [max N 0] calls of the Encoder constructor and then
    [max N 0] calls of the Decoder constructor return, each call on
    [(d_model, q, v, h, k, dropout, chunk_mode)] as given and on the
    generator state the call before left; if one of these calls raises,
    the construction raises that exception.  When no collaborator raises,
    the constructors called are exactly these, then the two affine maps
    and the generator if [pe] names one. *)
Theorem init_validates_only_pe
    d_input d_model d_output q v h k N dropout chunk_mode pe s :
  let run := __init__ d_input d_model d_output q v h k N dropout chunk_mode pe s in
  let eb := build_layers (Encoder_new d_model q v h k dropout chunk_mode)
              (Z.to_nat N) (rng s) in
  let db := build_layers (Decoder_new d_model q v h k dropout chunk_mode)
              (Z.to_nat N) eb.2 in
  (∀ e, run.1 = Error e →
     (∃ w, e = Foreign w) ∨
     (∃ name, pe = Some name ∧ ¬ pe_recognised pe ∧
              e = NameError (configuration_error_text name))) ∧
  ((∀ w, run.1 ≠ Error (Foreign w)) →
     trace run.2 =
     trace s ++ expected_calls d_input d_model d_output q v h k N
                  dropout chunk_mode pe) ∧
  (∀ self, run.1 = Ok self →
     length (layers_encoding self) = Z.to_nat N ∧
     length (layers_decoding self) = Z.to_nat N) ∧
  (∀ self, run.1 = Ok self →
     eb.1 = Ok (layers_encoding self) ∧ db.1 = Ok (layers_decoding self)) ∧
  (∀ w, eb.1 = Error w → run.1 = Error (Foreign w)) ∧
  (∀ encs w, eb.1 = Ok encs → db.1 = Error w → run.1 = Error (Foreign w)).
Proof.
  cbn zeta.
  pose proof (init_outcome d_input d_model d_output q v h k N dropout
                chunk_mode pe s) as Hout. cbn zeta in Hout.
  pose proof (init_layers d_input d_model d_output q v h k N dropout
                chunk_mode pe s) as Hlay. cbn zeta in Hlay.
  split; [|split; [|split; [|split; [|split]]]].
  - intros e Hrun. rewrite Hrun in Hout. destruct e as [msg| |w].
    + right. destruct Hout as (Hn & (name & -> & ->) & _). eauto.
    + contradiction.
    + left. eauto.
  - intros Hno. destruct (__init__ _ _ _ _ _ _ _ _ _ _ _ s).1 as [self|[msg| |w]].
    + apply Hout.
    + apply Hout.
    + contradiction.
    + now destruct (Hno w).
  - intros self Hrun. rewrite Hrun in Hout. tauto.
  - intros self Hrun.
    destruct (build_layers (Encoder_new _ _ _ _ _ _ _) _ _) as [[encs|w] r1];
      cbn [fst snd] in *; [|congruence].
    destruct (build_layers (Decoder_new _ _ _ _ _ _ _) _ _) as [[decs|w] r2];
      cbn [fst snd] in *; [|congruence].
    destruct (Hlay self Hrun) as [-> ->]. auto.
  - intros w Hw. rewrite Hw in Hlay. exact Hlay.
  - intros encs w He Hd. rewrite He in Hlay. rewrite Hd in Hlay. exact Hlay.
Qed.

(** What a construction that returned has built. *)
Lemma init_ok_inv d_input d_model d_output q v h k N dropout chunk_mode pe s self s' :
  __init__ d_input d_model d_output q v h k N dropout chunk_mode pe s = (Ok self, s') →
  let n0 := length (store s) in
  _embedding self = {| weight := n0; bias := S n0 |} ∧
  _linear self = {| weight := S (S n0); bias := S (S (S n0)) |} ∧
  ∃ wb1 wb2,
    match pe with
    | None =>
        _PE self = None ∧
        store s' = store s ++ affine_parameters d_input d_model d_output wb1 wb2
    | Some name =>
        ∃ gen t, pe_lookup name pe_functions = Some gen ∧ gen k d_model = Ok t ∧
          _PE self = Some (S (S (S (S n0)))) ∧
          store s' = store s ++ affine_parameters d_input d_model d_output wb1 wb2
                             ++ [t]
    end.
Proof.
  rewrite init_split.
  pose proof (init_stacks_run d_model q v h k N dropout chunk_mode s) as Hst.
  cbn zeta in Hst. destruct Hst as [Hs1 _].
  destruct (init_stacks d_model q v h k N dropout chunk_mode s)
    as [[[encs decs]|e] s1]; cbn [fst snd] in Hs1; [|discriminate].
  destruct s1 as [st1 rg1 tr1]. cbn [store] in Hs1. subst st1.
  set (s1 := State (store s) rg1 tr1).
  pose proof (init_rest_run d_input d_model d_output k pe encs decs s1) as Hr.
  cbn zeta in Hr. intros Hrun. rewrite Hrun in Hr. cbn [fst store rng trace s1] in Hr.
  destruct (Linear_init d_input d_model rg1) as [[wb1|w] r1]; [|discriminate].
  destruct (Linear_init d_model d_output r1) as [[wb2|w] r2]; [|discriminate].
  match type of Hr with context [init_PE _ _ _ ?s3] =>
    pose proof (init_PE_run k d_model pe s3) as HPE; set (s3' := s3) in * end.
  cbn zeta.
  destruct pe as [name|].
  - destruct (pe_lookup name pe_functions) as [gen|] eqn:Hlook.
    + destruct HPE as [_ HPE].
      destruct (gen k d_model) as [t|w] eqn:Hgen; rewrite HPE in Hr; [|discriminate].
      injection Hr as -> ->. cbn. repeat split. exists wb1, wb2, gen, t.
      repeat split; auto.
      * rewrite length_app. cbn. f_equal. lia.
      * now rewrite <- app_assoc.
    + destruct HPE as [_ HPE]. rewrite HPE in Hr. discriminate.
  - rewrite HPE in Hr. injection Hr as -> ->. cbn. repeat split.
    now exists wb1, wb2.
Qed.

(** A construction that returned has built an object of its configuration. *)
Lemma init_configured d_input d_model d_output q v h k N dropout chunk_mode pe s self s' :
  generators_shaped →
  __init__ d_input d_model d_output q v h k N dropout chunk_mode pe s = (Ok self, s') →
  configured (Z.to_nat d_input) (Z.to_nat d_model) (Z.to_nat d_output)
    (Z.to_nat k) self (store s').
Proof.
  intros Hgen Hrun. apply init_ok_inv in Hrun. cbn zeta in Hrun.
  destruct Hrun as (He & Hl & wb1 & wb2 & Hpe).
  unfold configured, allocated. rewrite He, Hl. cbn [weight bias].
  assert (Hst : ∃ rest, store s' =
            store s ++ affine_parameters d_input d_model d_output wb1 wb2 ++ rest
            ∧ ∀ l, _PE self = Some l →
                l = S (S (S (S (length (store s))))) ∧
                ∃ t, rest = [t] ∧ shape t = [Z.to_nat k; Z.to_nat d_model]).
  { destruct pe as [name|].
    - destruct Hpe as (gen & t & Hlook & Hg & HPE & Hs). exists [t].
      split; [exact Hs|]. intros l Hl'. rewrite HPE in Hl'.
      injection Hl' as <-. split; [reflexivity|]. exists t. split; [reflexivity|].
      apply Hgen. cbn in Hlook.
      destruct (String.eqb name "original"); [left; congruence|].
      destruct (String.eqb name "regular"); [right; congruence|discriminate].
    - destruct Hpe as [HPE Hs]. exists []. rewrite app_nil_r. split; [exact Hs|].
      intros l Hl'. congruence. }
  destruct Hst as (rest & -> & HPE).
  set (AP := affine_parameters d_input d_model d_output wb1 wb2) in *.
  set (n0 := length (store s)) in *.
  assert (Hlk : ∀ i x, (AP ++ rest) !! i = Some x →
                       (store s ++ AP ++ rest) !!! (i + n0) = x).
  { intros i x Hi. apply list_lookup_total_correct.
    now rewrite lookup_app_r, Nat.add_sub by (unfold n0; lia). }
  pose proof (Hlk 0 _ eq_refl) as E0. pose proof (Hlk 1 _ eq_refl) as E1.
  pose proof (Hlk 2 _ eq_refl) as E2. pose proof (Hlk 3 _ eq_refl) as E3.
  cbn [Nat.add] in E0, E1, E2, E3. rewrite E0, E1, E2, E3. cbn [shape].
  rewrite !length_app. fold n0. cbn [length AP affine_parameters].
  repeat split; try lia.
  - intros l Hl'. destruct (HPE l Hl') as (-> & t & -> & _). cbn. lia.
  - intros l Hl'. destruct (HPE l Hl') as (-> & t & -> & Hsh).
    pose proof (Hlk 4 t eq_refl) as E4. cbn [Nat.add] in E4. now rewrite E4.
Qed.

Lemma forward_without_table self x s :
  _PE self = None → forward self x s = forward_without_PE self x s.
Proof. intros HPE. unfold forward, forward_without_PE, add_PE. now rewrite HPE. Qed.

(** C6.  A construction with [pe=None] stores no table: the [_PE] field
    is [None], the only tensors it allocated are the weights and biases
    of the two affine maps, and no generator was called.  On every input
    and in every state, its [forward] is [forward] with both additions
    taken out. *)
Theorem init_without_pe
    d_input d_model d_output q v h k N dropout chunk_mode s self s1 :
  __init__ d_input d_model d_output q v h k N dropout chunk_mode None s
    = (Ok self, s1) →
  _PE self = None ∧
  (∃ wb1 wb2,
     store s1 = store s ++ affine_parameters d_input d_model d_output wb1 wb2) ∧
  trace s1 =
    trace s ++
    repeat (CallEncoder d_model q v h k dropout chunk_mode) (Z.to_nat N) ++
    repeat (CallDecoder d_model q v h k dropout chunk_mode) (Z.to_nat N) ++
    [CallLinear d_input d_model; CallLinear d_model d_output] ∧
  ∀ x s', forward self x s' = forward_without_PE self x s'.
Proof.
  intros Hrun.
  pose proof (init_outcome d_input d_model d_output q v h k N dropout
                chunk_mode None s) as Hout. cbn zeta in Hout.
  rewrite Hrun in Hout. cbn [fst snd] in Hout. destruct Hout as (_ & _ & _ & Ht).
  apply init_ok_inv in Hrun. cbn zeta in Hrun.
  destruct Hrun as (_ & _ & wb1 & wb2 & HPE & Hs).
  split; [exact HPE|]. split; [eauto|]. split.
  - rewrite Ht. unfold expected_calls. now rewrite app_nil_r.
  - intros x s'. now apply forward_without_table.
Qed.

End Construction.

(** ** Empty stacks *)

Section Stackless.
Context `{Collaborators}.

Lemma forward_spec_stackless p x r :
  forward_spec p [] [] x r = (stackless_pipeline p x, r).
Proof.
  unfold forward_spec, stackless_pipeline, vbind, vlift, vret, and_then, plus_PE.
  cbn [encoder_stack decoder_stack]. unfold vret.
  destruct (table p) as [pe|].
  - destruct (linear_val x _ _) as [E0|e]; [|reflexivity].
    destruct (add_val E0 pe) as [E1|e]; [|reflexivity].
    destruct (add_val E1 pe) as [E2|e]; [|reflexivity].
    now destruct (linear_val E2 _ _).
  - destruct (linear_val x _ _) as [E0|e]; [|reflexivity].
    now destruct (linear_val E0 _ _).
Qed.

(** C9.  A construction with [N = 0] calls no layer constructor: it runs as
    lines 82-96 alone, so it returns as soon as the two affine maps and
    the table step return, and the object it returns has two empty
    stacks.  On every input [forward] then returns
    [sigmoid(outputProjection(embedding(x) + table + table))] if there is
    a table and [sigmoid(outputProjection(embedding(x)))] if not, raises
    the exception of the first of these steps that raises, and leaves the
    random generator alone. *)
Theorem init_N0 d_input d_model d_output q v h k dropout chunk_mode pe s :
  let run := __init__ d_input d_model d_output q v h k 0 dropout chunk_mode pe s in
  run = init_rest d_input d_model d_output k pe [] [] s ∧
  (∀ emb lin tbl s1 s2 s3,
     nn_Linear d_input d_model s = (Ok emb, s1) →
     nn_Linear d_model d_output s1 = (Ok lin, s2) →
     init_PE k d_model pe s2 = (Ok tbl, s3) →
     run = (Ok {| layers_encoding := []; layers_decoding := [];
                  _embedding := emb; _linear := lin; _PE := tbl |}, s3)) ∧
  (∀ self s1, run = (Ok self, s1) →
     layers_encoding self = [] ∧ layers_decoding self = [] ∧
     ∀ x s', allocated self (store s') →
       returns (forward self x s')
         (stackless_pipeline (parameters_of self (store s')) (store s' !!! x)) ∧
       rng (forward self x s').2 = rng s').
Proof.
  cbn zeta. split; [reflexivity|]. split.
  - intros emb lin tbl s1 s2 s3 H1 H2 H3.
    change (__init__ d_input d_model d_output q v h k 0 dropout chunk_mode pe s)
      with (init_rest d_input d_model d_output k pe [] [] s).
    unfold init_rest.
    now rewrite (bind_ok _ _ _ _ _ H1), (bind_ok _ _ _ _ _ H2),
      (bind_ok _ _ _ _ _ H3).
  - intros self s1 Hrun.
    change (__init__ d_input d_model d_output q v h k 0 dropout chunk_mode pe s)
      with (init_rest d_input d_model d_output k pe [] [] s) in Hrun.
    pose proof (init_rest_run d_input d_model d_output k pe [] [] s) as Hr.
    cbn zeta in Hr. rewrite Hrun in Hr. cbn [fst] in Hr.
    destruct (Linear_init d_input d_model (rng s)) as [[wb1|w] r1]; [|discriminate].
    destruct (Linear_init d_model d_output r1) as [[wb2|w] r2]; [|discriminate].
    destruct (init_PE k d_model pe _) as [[tbl|e] s4]; [|discriminate].
    injection Hr as -> _. cbn [layers_encoding layers_decoding].
    split; [reflexivity|]. split; [reflexivity|].
    intros x s' Hal.
    pose proof (Htr := forward_tracks _ x s' Hal).
    cbn [layers_encoding layers_decoding] in Htr.
    rewrite forward_spec_stackless in Htr.
    split; [exact (tracks_returns _ _ _ _ _ Htr)|].
    now destruct Htr as (_ & _ & Hrng & _).
Qed.

End Stackless.

(** ** Shapes *)

Section Shapes.
Context `{Collaborators}.

Lemma length_concat_blocks {A} (f : nat → list A) (o : nat) (rows : list nat) :
  (∀ r, length (f r) = o) → length (concat (f <$> rows)) = length rows * o.
Proof.
  intros Hf. induction rows as [|r rows IH]; [reflexivity|].
  cbn. rewrite length_app, Hf, IH. reflexivity.
Qed.

Lemma length_affine i o (W b xrow : list elt) : length (affine i o W b xrow) = o.
Proof. unfold affine. now rewrite length_fmap, length_seq. Qed.

Lemma linear_val_shape (x W b : tensor) B k i o :
  shape x = [B; k; i] → shape W = [o; i] → shape b = [o] →
  ∃ y, linear_val x W b = Ok y ∧ shape y = [B; k; o] ∧
       length (data y) = B * k * o.
Proof.
  intros Hx HW Hb. unfold linear_val. rewrite HW, Hx, Hb. cbn [reverse rev_append].
  rewrite bool_decide_eq_true_2 by auto.
  eexists. split; [reflexivity|]. cbn [shape data]. split; [reflexivity|].
  rewrite (length_concat_blocks _ o) by (intros; apply length_affine).
  rewrite length_seq. unfold numel. cbn [foldr].
  now rewrite Nat.mul_1_r, (Nat.mul_comm k B).
Qed.

Lemma add_val_shape (t pe : tensor) B k d :
  shape t = [B; k; d] → shape pe = [k; d] →
  ∃ y, add_val t pe = Ok y ∧ shape y = [B; k; d].
Proof.
  intros Ht Hpe. unfold add_val. rewrite Ht, Hpe. cbn [reverse rev_append broadcastable].
  rewrite (bool_decide_eq_true_2 (d = d)), (bool_decide_eq_true_2 (k = k))
    by reflexivity. cbn [orb andb].
  eexists. split; [reflexivity|]. reflexivity.
Qed.

(** The addition of a [(k, d)] table to a [(B, k, d)] tensor is
    elementwise in time and feature and the same for every batch entry. *)
Lemma add_val_broadcast (t pe y : tensor) B k d b i j a :
  shape t = [B; k; d] → shape pe = [k; d] → add_val t pe = Ok y →
  i < k → j < d →
  data t !! ((b * k + i) * d + j) = Some a →
  data y !! ((b * k + i) * d + j) = Some (eadd a (nth (i * d + j) (data pe) zero)).
Proof.
  intros Ht Hpe Hadd Hi Hj Ha. unfold add_val in Hadd.
  rewrite Ht, Hpe in Hadd. cbn [reverse rev_append broadcastable bidx] in Hadd.
  rewrite (bool_decide_eq_true_2 (d = d)), (bool_decide_eq_true_2 (k = k)) in Hadd
    by reflexivity.
  cbn [orb andb] in Hadd. injection Hadd as <-. cbn [data].
  rewrite list_lookup_imap, Ha. cbn. do 3 f_equal.
  rewrite Nat.mul_0_r, Nat.add_0_r.
  rewrite (Nat.add_comm _ j), Nat.Div0.mod_add, Nat.div_add by lia.
  rewrite (Nat.mod_small j d), (Nat.div_small j d) by lia. cbn [Nat.add].
  rewrite (Nat.add_comm _ i), Nat.Div0.mod_add, (Nat.mod_small i k) by lia.
  lia.
Qed.

Lemma plus_PE_shape (tbl : option tensor) (t : tensor) B k d :
  shape t = [B; k; d] → (∀ pe, tbl = Some pe → shape pe = [k; d]) →
  ∃ y, plus_PE tbl t = Ok y ∧ shape y = [B; k; d].
Proof.
  intros Ht Htbl. destruct tbl as [pe|]; cbn.
  - apply add_val_shape; auto.
  - eauto.
Qed.

Lemma encoder_stack_shape B k d layers :
  Forall (Encoder_shape_preserving B k d) layers →
  ∀ t r, shape t = [B; k; d] →
    ∃ y, (encoder_stack layers t r).1 = Ok y ∧ shape y = [B; k; d].
Proof.
  induction 1 as [|layer rest Hl _ IH]; intros t r Ht; cbn [encoder_stack].
  - exists t. auto.
  - unfold vbind, vforeign. destruct (Hl t r Ht) as (t' & Hrun & Ht').
    destruct (Encoder_forward layer t r) as [[y|w] r1]; cbn in Hrun; [|discriminate].
    injection Hrun as ->. now apply IH.
Qed.

Lemma decoder_stack_shape B k d layers :
  Forall (Decoder_shape_preserving B k d) layers →
  ∀ t m r, shape t = [B; k; d] → shape m = [B; k; d] →
    ∃ y, (decoder_stack layers t m r).1 = Ok y ∧ shape y = [B; k; d].
Proof.
  induction 1 as [|layer rest Hl _ IH]; intros t m r Ht Hm; cbn [decoder_stack].
  - exists t. auto.
  - unfold vbind, vforeign. destruct (Hl t m r Ht Hm) as (t' & Hrun & Ht').
    destruct (Decoder_forward layer t m r) as [[y|w] r1]; cbn in Hrun; [|discriminate].
    injection Hrun as ->. now apply IH.
Qed.

Lemma forward_spec_shape d_input d_model d_output k B p encs decs x r :
  shape (embedding_weight p) = [d_model; d_input] →
  shape (embedding_bias p) = [d_model] →
  shape (projection_weight p) = [d_output; d_model] →
  shape (projection_bias p) = [d_output] →
  (∀ pe, table p = Some pe → shape pe = [k; d_model]) →
  shape x = [B; k; d_input] →
  Forall (Encoder_shape_preserving B k d_model) encs →
  Forall (Decoder_shape_preserving B k d_model) decs →
  ∃ y, (forward_spec p encs decs x r).1 = Ok y ∧
       shape y = [B; k; d_output] ∧ length (data y) = B * k * d_output.
Proof.
  intros HWe Hbe HWo Hbo Htbl Hx Hencs Hdecs.
  unfold forward_spec, vbind, vlift, vret.
  destruct (linear_val_shape _ _ _ _ _ _ _ Hx HWe Hbe) as (E0 & -> & HE0 & _).
  destruct (plus_PE_shape _ _ _ _ _ HE0 Htbl) as (E0' & -> & HE0').
  destruct (encoder_stack_shape _ _ _ _ Hencs E0' r HE0') as (M0 & HM & HM0).
  destruct (encoder_stack encs E0' r) as [[M0'|e] r1]; cbn in HM; [|discriminate].
  injection HM as ->.
  destruct (plus_PE_shape _ _ _ _ _ HM0 Htbl) as (Mem & -> & HMem).
  destruct (decoder_stack_shape _ _ _ _ Hdecs Mem Mem r1 HMem HMem)
    as (DN & HD & HDN).
  destruct (decoder_stack decs Mem Mem r1) as [[DN'|e] r2]; cbn in HD; [|discriminate].
  injection HD as ->.
  destruct (linear_val_shape _ _ _ _ _ _ _ HDN HWo Hbo) as (P & -> & HP & HPl).
  exists (sigmoid_val P). cbn. rewrite length_fmap. auto.
Qed.

(** C2.  For an object whose parameters and table have the shapes of a
    configuration [(d_input, d_model, d_output, k)] and layers that keep
    the shape [(batch, k, d_model)], [forward] on an input of shape
    [(batch, k, d_input)] raises nothing and returns a tensor of shape
    [(batch, k, d_output)], with [batch * k * d_output] elements. *)
Theorem forward_shape d_input d_model d_output k B self x s :
  configured d_input d_model d_output k self (store s) →
  shape (store s !!! x) = [B; k; d_input] →
  Forall (Encoder_shape_preserving B k d_model) (layers_encoding self) →
  Forall (Decoder_shape_preserving B k d_model) (layers_decoding self) →
  ∃ out, (forward self x s).1 = Ok out ∧
    shape (store (forward self x s).2 !!! out) = [B; k; d_output] ∧
    length (data (store (forward self x s).2 !!! out)) = B * k * d_output.
Proof.
  intros (Hal & HWe & Hbe & HWo & Hbo & Htbl) Hx Hencs Hdecs.
  pose proof (tracks_returns _ _ _ _ _ (forward_tracks self x s Hal)) as Hret.
  destruct (forward_spec_shape d_input d_model d_output k B
              (parameters_of self (store s)) (layers_encoding self)
              (layers_decoding self) (store s !!! x) (rng s))
    as (y & Hy & Hsh & Hlen); auto.
  { cbn. intros pe Hpe. destruct (_PE self) as [l|]; [|discriminate].
    injection Hpe as <-. now apply Htbl. }
  unfold returns in Hret. rewrite Hy in Hret.
  destruct (forward self x s).1 as [out|e]; [|contradiction].
  exists out. rewrite Hret. auto.
Qed.

End Shapes.

(** ** Defaults and the output *)

Section Defaults.
Context `{Collaborators}.

(** C5.  A call that omits the three keyword arguments runs the
    constructor with [dropout = 0.3], [chunk_mode = True] and [pe = None]:
    the default of [chunk_mode] is the boolean [True], no string, so none
    of the values ['chunk'], ['window'], [None] the docstring lists. *)
Theorem default_chunk_mode_is_True d_input d_model d_output q v h k N s :
  Transformer_new d_input d_model d_output q v h k N None None None s =
  __init__ d_input d_model d_output q v h k N
    (PyFloat 0x1.3333333333333p-2%float) (PyBool true) None s ∧
  (∀ name, default_chunk_mode ≠ PyStr name) ∧
  default_chunk_mode ≠ PyNone.
Proof. split; [reflexivity|]. split; [intros name|]; discriminate. Qed.

(** Every element [forward] returns is the sigmoid of an element of the
    output projection. *)
Lemma forward_output_squashed self x s out :
  allocated self (store s) →
  (forward self x s).1 = Ok out →
  ∃ P, data (store (forward self x s).2 !!! out) = sigmoid <$> data P.
Proof.
  intros Hal Hout.
  pose proof (tracks_returns _ _ _ _ _ (forward_tracks self x s Hal)) as Hret.
  unfold returns in Hret. rewrite Hout in Hret.
  unfold forward_spec, vbind, vlift, vret in Hret.
  destruct (linear_val _ _ _) as [E0|e]; [|contradiction].
  destruct (plus_PE _ E0) as [E0'|e]; [|contradiction].
  destruct (encoder_stack _ E0' _) as [[M0|e] r1]; [|contradiction].
  destruct (plus_PE _ M0) as [Mem|e]; [|contradiction].
  destruct (decoder_stack _ Mem Mem r1) as [[DN|e] r2]; [|contradiction].
  destruct (linear_val DN _ _) as [P|e]; [|contradiction].
  cbn in Hret. rewrite Hret. now exists P.
Qed.

(** C3, as amended.  Every element [forward] returns is a value of the
    squashing nonlinearity, so it lies in every set that holds all the
    values of the nonlinearity: strictly within (0, 1) where these are,
    as in exact arithmetic. *)
Theorem forward_output_range (P : elt → Prop) self x s out :
  allocated self (store s) →
  (∀ z, P (sigmoid z)) →
  (forward self x s).1 = Ok out →
  Forall P (data (store (forward self x s).2 !!! out)).
Proof.
  intros Hal HP Hout.
  destruct (forward_output_squashed self x s out Hal Hout) as [P0 ->].
  apply Forall_fmap, Forall_forall. intros z _. apply HP.
Qed.

End Defaults.

Lemma Qsquash_range q : (0 < Qsquash q)%Q ∧ (Qsquash q < 1)%Q.
Proof.
  unfold Qsquash. pose proof (Qabs_nonneg q) as H0.
  pose proof (Qle_Qabs q) as H1. pose proof (Qle_Qabs (- q)) as H2.
  rewrite Qabs_opp in H2.
  assert (Hd : (0 < 2 * Qabs q + 2)%Q) by lra.
  split.
  - apply Qlt_shift_div_l; [exact Hd|]. lra.
  - apply Qlt_shift_div_r; [exact Hd|]. lra.
Qed.

(** The run of [Saturating]: whatever the library's exponential computes
    between its underflow and its overflow, the projection is
    [[1000; -1000]] and the tensor returned is [[1; 0]]. *)
Lemma saturating_run core :
  @forward (binary64 core) (no_layers (binary64 core))
    (Saturating.model core) 4 (Saturating.ready core) =
  (Ok 7,
   @State (binary64 core) (no_layers (binary64 core))
     (@store (binary64 core) (no_layers (binary64 core)) (Saturating.ready core)
        ++ [Saturating.cell core [1; 2; 1] [1000%float; (-1000)%float];
            Saturating.cell core [1; 2; 1] [1000%float; (-1000)%float];
            Saturating.cell core [1; 2; 1] [1%float; 0%float]])
     tt []).
Proof. vm_compute. reflexivity. Qed.

(** C3, the claim as stated, fails in binary64: for no exponential with
    the underflow and overflow of binary64 is every returned element
    strictly within (0, 1).  On finite parameters and the finite input
    [[1; -1]], [forward] returns exactly 1 and exactly 0. *)
Lemma open_unit_interval_fails : ¬ ∃ core, open_unit_claim core.
Proof.
  intros [core Hclaim].
  specialize (Hclaim (no_layers (binary64 core)) (Saturating.model core) 4
                (Saturating.ready core) 7).
  rewrite saturating_run in Hclaim.
  assert (Hall : Forall open_unit [1%float; 0%float]).
  { apply Hclaim.
    - unfold allocated. cbn. repeat split; try lia. intros l [=].
    - repeat (apply List.Forall_cons;
                [repeat (apply List.Forall_cons; [reflexivity|]);
                 apply List.Forall_nil|]).
      apply List.Forall_nil.
    - reflexivity. }
  apply List.Forall_inv in Hall. destruct Hall as [_ Hlt]. discriminate Hlt.
Qed.


(** ** More on the forward pass *)

Section MoreForward.
Context `{Collaborators}.

Lemma bind_ok_inv {A B} (c : M A) (k : A → M B) s b s' :
  bind c k s = (Ok b, s') → ∃ a s1, c s = (Ok a, s1) ∧ k a s1 = (Ok b, s').
Proof.
  unfold bind. destruct (c s) as [[a|e] s1]; [eauto|discriminate].
Qed.

Lemma bind_error_inv {A B} (c : M A) (k : A → M B) s e s' :
  bind c k s = (Error e, s') →
  c s = (Error e, s') ∨ ∃ a s1, c s = (Ok a, s1) ∧ k a s1 = (Error e, s').
Proof.
  unfold bind. destruct (c s) as [[a|e1] s1]; [eauto|]. intros [= -> ->]. auto.
Qed.

Lemma Linear_call_ok_inv self x s l s' :
  Linear_call self x s = (Ok l, s') →
  length (store s') = S (length (store s)) ∧ rng s' = rng s.
Proof.
  rewrite Linear_call_eq. destruct (linear_val _ _ _); [|discriminate].
  intros [= <- <-]. cbn. rewrite length_app. cbn. split; [lia|reflexivity].
Qed.

Lemma add_PE_ok_inv self enc s u s' :
  add_PE self enc s = (Ok u, s') → length (store s') = length (store s).
Proof.
  unfold add_PE. destruct (_PE self) as [pe|].
  - rewrite add__eq. destruct (add_val _ _); [|discriminate].
    intros [= <- <-]. cbn. apply length_insert.
  - now intros [= <- <-].
Qed.

Lemma encoder_loop_length layers : ∀ enc s l s',
  foldM (λ encoding layer, Encoder_call layer encoding) enc layers s = (Ok l, s') →
  length (store s') = length (store s) + length layers.
Proof.
  induction layers as [|layer rest IH]; intros enc s l s'; cbn [foldM].
  - intros [= <- <-]. cbn. lia.
  - intros (a & s1 & Hc & Hk)%bind_ok_inv. apply IH in Hk. rewrite Hk.
    rewrite Encoder_call_eq in Hc.
    destruct (Encoder_forward layer _ _) as [[y|w] r]; [|discriminate].
    injection Hc as <- <-. cbn. rewrite length_app. cbn. lia.
Qed.

Lemma decoder_loop_length layers mem : ∀ dec s l s',
  foldM (λ decoding layer, Decoder_call layer decoding mem) dec layers s = (Ok l, s') →
  length (store s') = length (store s) + length layers.
Proof.
  induction layers as [|layer rest IH]; intros dec s l s'; cbn [foldM].
  - intros [= <- <-]. cbn. lia.
  - intros (a & s1 & Hc & Hk)%bind_ok_inv. apply IH in Hk. rewrite Hk.
    rewrite Decoder_call_eq in Hc.
    destruct (Decoder_forward layer _ _ _) as [[y|w] r]; [|discriminate].
    injection Hc as <- <-. cbn. rewrite length_app. cbn. lia.
Qed.

(** X6.  A call of [forward] that returns has created exactly one tensor
    per layer and three more (the embedding, the projection, the output):
    the two positional additions create none.  The tensor returned is the
    last one created. *)
Theorem forward_allocates self x s out :
  (forward self x s).1 = Ok out →
  length (store (forward self x s).2) =
    length (store s) + length (layers_encoding self)
                     + length (layers_decoding self) + 3 ∧
  S out = length (store (forward self x s).2).
Proof.
  destruct (forward self x s) as [res s'] eqn:Hrun. cbn [fst snd]. intros ->.
  unfold forward in Hrun.
  apply bind_ok_inv in Hrun as (e0 & s1 & H1 & Hrun).
  apply bind_ok_inv in Hrun as (u1 & s2 & H2 & Hrun).
  apply bind_ok_inv in Hrun as (e1 & s3 & H3 & Hrun).
  apply bind_ok_inv in Hrun as (u2 & s4 & H4 & Hrun). cbv zeta in Hrun.
  apply bind_ok_inv in Hrun as (d & s5 & H5 & Hrun).
  apply bind_ok_inv in Hrun as (o1 & s6 & H6 & Hrun).
  apply bind_ok_inv in Hrun as (o2 & s7 & H7 & Hrun).
  injection Hrun as <- <-.
  apply Linear_call_ok_inv in H1 as [L1 _]. apply add_PE_ok_inv in H2.
  apply encoder_loop_length in H3. apply add_PE_ok_inv in H4.
  apply decoder_loop_length in H5. apply Linear_call_ok_inv in H6 as [L6 _].
  rewrite torch_sigmoid_eq in H7. injection H7 as <- <-. cbn [store].
  rewrite length_app. cbn [length]. lia.
Qed.






(** X7.  An input whose last dimension is not [d_input] (an input without
    dimensions included) is refused by the embedding: [forward] raises the
    shape error at once, before any tensor is created or any layer called. *)
Theorem forward_wrong_width d_input d_model self x s :
  shape (store s !!! weight (_embedding self)) = [d_model; d_input] →
  last (shape (store s !!! x)) ≠ Some d_input →
  forward self x s = (Error RuntimeError, s).
Proof.
  intros HW Hx. unfold forward. apply bind_error. rewrite Linear_call_eq.
  unfold linear_val. rewrite HW. rewrite <- head_reverse in Hx.
  destruct (reverse (shape (store s !!! x))) as [|d pre]; [reflexivity|].
  rewrite bool_decide_eq_false_2; [reflexivity|].
  intros [-> _]. now apply Hx.
Qed.

End MoreForward.

(** ** Ranks and sequence lengths *)

Section MoreShapes.
Context `{Collaborators}.

Lemma numel_app (l1 l2 : list nat) : numel (l1 ++ l2) = numel l1 * numel l2.
Proof.
  unfold numel. induction l1 as [|a l1 IH]; cbn [app foldr].
  - now rewrite Nat.mul_1_l.
  - now rewrite IH, Nat.mul_assoc.
Qed.

Lemma numel_reverse (l : list nat) : numel (reverse l) = numel l.
Proof.
  induction l as [|a l IH]; [reflexivity|].
  rewrite reverse_cons, numel_app, IH. unfold numel. cbn [foldr].
  now rewrite Nat.mul_1_r, Nat.mul_comm.
Qed.

Lemma linear_val_lead (x W b : tensor) lead i o :
  shape x = lead ++ [i] → shape W = [o; i] → shape b = [o] →
  ∃ y, linear_val x W b = Ok y ∧ shape y = lead ++ [o] ∧
       length (data y) = numel (lead ++ [o]).
Proof.
  intros Hx HW Hb. unfold linear_val. rewrite HW, Hx, Hb, reverse_snoc.
  rewrite bool_decide_eq_true_2 by auto.
  eexists. split; [reflexivity|]. cbn [shape data].
  rewrite reverse_involutive. split; [reflexivity|].
  rewrite (length_concat_blocks _ o) by (intros; apply length_affine).
  rewrite length_seq, numel_app, numel_reverse. cbn. lia.
Qed.

Lemma broadcastable_nil (ts : list nat) : broadcastable ts [] = true.
Proof. now destruct ts. Qed.

(** Whether a [(k, d)] table can be added to a tensor whose last two
    dimensions are [(k', d)]. *)
Lemma broadcastable_table lead k k' d :
  broadcastable (reverse (lead ++ [k'; d])) (reverse [k; d]) =
  bool_decide (k = k') || bool_decide (k = 1).
Proof.
  rewrite reverse_app. cbn [reverse rev_append app broadcastable].
  rewrite (bool_decide_eq_true_2 (d = d)) by reflexivity. cbn [orb andb].
  now rewrite broadcastable_nil, andb_true_r.
Qed.

Lemma plus_PE_keeps (tbl : option tensor) (t : tensor) :
  (∀ pe, tbl = Some pe →
     broadcastable (reverse (shape t)) (reverse (shape pe)) = true) →
  ∃ y, plus_PE tbl t = Ok y ∧ shape y = shape t ∧
       length (data y) = length (data t).
Proof.
  intros Hb. destruct tbl as [pe|]; cbn; [|eauto].
  unfold add_val. rewrite (Hb pe eq_refl). eexists. split; [reflexivity|].
  cbn. split; [reflexivity|]. apply length_imap.
Qed.

Lemma encoder_stack_keeps sh layers :
  Forall (Encoder_keeps sh) layers →
  ∀ t r, shape t = sh → ∃ y, (encoder_stack layers t r).1 = Ok y ∧ shape y = sh.
Proof.
  induction 1 as [|layer rest Hl _ IH]; intros t r Ht; cbn [encoder_stack].
  - exists t. auto.
  - unfold vbind, vforeign. destruct (Hl t r Ht) as (t' & Hrun & Ht').
    destruct (Encoder_forward layer t r) as [[y|w] r1]; cbn in Hrun; [|discriminate].
    injection Hrun as ->. now apply IH.
Qed.

Lemma decoder_stack_keeps sh layers :
  Forall (Decoder_keeps sh) layers →
  ∀ t m r, shape t = sh → shape m = sh →
    ∃ y, (decoder_stack layers t m r).1 = Ok y ∧ shape y = sh.
Proof.
  induction 1 as [|layer rest Hl _ IH]; intros t m r Ht Hm; cbn [decoder_stack].
  - exists t. auto.
  - unfold vbind, vforeign. destruct (Hl t m r Ht Hm) as (t' & Hrun & Ht').
    destruct (Decoder_forward layer t m r) as [[y|w] r1]; cbn in Hrun; [|discriminate].
    injection Hrun as ->. now apply IH.
Qed.

Lemma forward_spec_lead d_input d_model d_output lead p encs decs x r :
  shape (embedding_weight p) = [d_model; d_input] →
  shape (embedding_bias p) = [d_model] →
  shape (projection_weight p) = [d_output; d_model] →
  shape (projection_bias p) = [d_output] →
  (∀ pe, table p = Some pe →
     broadcastable (reverse (lead ++ [d_model])) (reverse (shape pe)) = true) →
  shape x = lead ++ [d_input] →
  Forall (Encoder_keeps (lead ++ [d_model])) encs →
  Forall (Decoder_keeps (lead ++ [d_model])) decs →
  ∃ y, (forward_spec p encs decs x r).1 = Ok y ∧
       shape y = lead ++ [d_output] ∧ length (data y) = numel (lead ++ [d_output]).
Proof.
  intros HWe Hbe HWo Hbo Htbl Hx Hencs Hdecs.
  unfold forward_spec, vbind, vlift, vret.
  destruct (linear_val_lead _ _ _ _ _ _ Hx HWe Hbe) as (E0 & -> & HE0 & _).
  destruct (plus_PE_keeps (table p) E0) as (E0' & -> & HE0' & _).
  { now rewrite HE0. }
  rewrite HE0 in HE0'.
  destruct (encoder_stack_keeps _ _ Hencs E0' r HE0') as (M0 & HM & HM0).
  destruct (encoder_stack encs E0' r) as [[M0'|e] r1]; cbn in HM; [|discriminate].
  injection HM as ->.
  destruct (plus_PE_keeps (table p) M0) as (Mem & -> & HMem & _).
  { now rewrite HM0. }
  rewrite HM0 in HMem.
  destruct (decoder_stack_keeps _ _ Hdecs Mem Mem r1 HMem HMem) as (DN & HD & HDN).
  destruct (decoder_stack decs Mem Mem r1) as [[DN'|e] r2]; cbn in HD; [|discriminate].
  injection HD as ->.
  destruct (linear_val_lead _ _ _ _ _ _ HDN HWo Hbo) as (P & -> & HP & HPl).
  exists (sigmoid_val P). cbn. rewrite length_fmap. auto.
Qed.

(** X9.  [forward] does not ask for three dimensions, nor for the sequence
    length [k] of the construction when nothing depends on it: an input of
    shape [lead ++ (k', d_input)], for any leading dimensions [lead] (none
    included), is taken to an output of shape [lead ++ (k', d_output)] with
    all its elements, provided that the table, if there is one, has [k']
    rows or a single row, and that the layers keep the shape
    [lead ++ (k', d_model)]. *)
Theorem forward_accepts d_input d_model d_output k k' lead self x s :
  allocated self (store s) →
  affine_shaped d_input d_model d_output self (store s) →
  (∀ l, _PE self = Some l →
     shape (store s !!! l) = [k; d_model] ∧ (k = k' ∨ k = 1)) →
  shape (store s !!! x) = lead ++ [k'; d_input] →
  Forall (Encoder_keeps (lead ++ [k'; d_model])) (layers_encoding self) →
  Forall (Decoder_keeps (lead ++ [k'; d_model])) (layers_decoding self) →
  ∃ out, (forward self x s).1 = Ok out ∧
    shape (store (forward self x s).2 !!! out) = lead ++ [k'; d_output] ∧
    length (data (store (forward self x s).2 !!! out)) =
      numel (lead ++ [k'; d_output]).
Proof.
  intros Hal (HWe & Hbe & HWo & Hbo) Htbl Hx Hencs Hdecs.
  pose proof (tracks_returns _ _ _ _ _ (forward_tracks self x s Hal)) as Hret.
  destruct (forward_spec_lead d_input d_model d_output (lead ++ [k'])
              (parameters_of self (store s)) (layers_encoding self)
              (layers_decoding self) (store s !!! x) (rng s))
    as (y & Hy & Hsh & Hlen); auto.
  - cbn. intros pe Hpe. destruct (_PE self) as [l|]; [|discriminate].
    injection Hpe as <-. destruct (Htbl l eq_refl) as [-> Hk].
    rewrite <- app_assoc. cbn [app]. rewrite broadcastable_table.
    destruct Hk as [Hk|Hk]; rewrite (bool_decide_eq_true_2 _ Hk);
      [reflexivity|apply orb_true_r].
  - now rewrite <- app_assoc.
  - now rewrite <- app_assoc.
  - now rewrite <- app_assoc.
  - rewrite <- !app_assoc in *. cbn [app] in *.
    unfold returns in Hret. rewrite Hy in Hret.
    destruct (forward self x s).1 as [out|e]; [|contradiction].
    exists out. rewrite Hret. auto.
Qed.

(** X8.  With a table of [k] rows, [k] other than 1, an input of another
    sequence length, or an input of one dimension only, is refused at the
    first addition: [forward] raises the shape error after the embedding
    alone was created, and no layer is called. *)
Theorem forward_rejects_length d_input d_model d_output k self x s l :
  allocated self (store s) →
  affine_shaped d_input d_model d_output self (store s) →
  _PE self = Some l → shape (store s !!! l) = [k; d_model] →
  (shape (store s !!! x) = [d_input] ∨
   ∃ lead k', shape (store s !!! x) = lead ++ [k'; d_input] ∧ k ≠ k' ∧ k ≠ 1) →
  (forward self x s).1 = Error RuntimeError ∧
  rng (forward self x s).2 = rng s ∧
  length (store (forward self x s).2) = S (length (store s)).
Proof.
  intros Hal (HWe & Hbe & _) HPE Hl Hx.
  assert (Hlt : l < length (store s)) by (apply Hal; exact HPE).
  assert (HE : ∃ lead', ∃ E0,
             linear_val (store s !!! x) (store s !!! weight (_embedding self))
               (store s !!! bias (_embedding self)) = Ok E0 ∧
             shape E0 = lead' ++ [d_model] ∧
             broadcastable (reverse (lead' ++ [d_model])) (reverse [k; d_model])
               = false).
  { destruct Hx as [Hx|(lead & k' & Hx & Hk & H1)].
    - exists []. destruct (linear_val_lead _ _ _ [] _ _ Hx HWe Hbe) as (E0 & HE0 & Hs & _).
      exists E0. repeat split; auto. cbn.
      now rewrite (bool_decide_eq_true_2 (d_model = d_model)).
    - exists (lead ++ [k']).
      destruct (linear_val_lead (store s !!! x)
                  (store s !!! weight (_embedding self))
                  (store s !!! bias (_embedding self))
                  (lead ++ [k']) d_input d_model)
        as (E0 & HE0 & Hs & _); auto.
      { now rewrite <- app_assoc. }
      exists E0. repeat split; auto. rewrite <- app_assoc. cbn [app].
      rewrite broadcastable_table.
      now rewrite !bool_decide_eq_false_2. }
  destruct HE as (lead' & E0 & HE0 & Hs & Hb).
  assert (Hrun : forward self x s =
            (Error RuntimeError, State (store s ++ [E0]) (rng s) (trace s))).
  { rewrite forward_cut. unfold bind at 1. rewrite Linear_call_eq, HE0.
    unfold bind at 1. unfold add_PE. rewrite HPE, add__eq. cbn [store].
    rewrite list_lookup_total_middle by reflexivity.
    rewrite lookup_total_app_l by exact Hlt.
    unfold add_val. now rewrite Hs, Hl, Hb. }
  rewrite Hrun. cbn [fst snd store rng]. rewrite length_app. cbn [length].
  repeat split. lia.
Qed.

End MoreShapes.

(** ** More on construction *)

Section MoreConstruction.
Context `{Collaborators}.

Lemma configured_prefix d_input d_model d_output k self (st st' : list tensor) :
  configured d_input d_model d_output k self st → st `prefix_of` st' →
  configured d_input d_model d_output k self st'.
Proof.
  intros (Hal & HWe & Hbe & HWo & Hbo & Htbl) Hp.
  pose proof Hal as (H1 & H2 & H3 & H4 & H5).
  split; [eapply allocated_prefix; eauto|].
  rewrite !(prefix_lookup_total st st') by auto. repeat split; auto.
  intros l Hl. rewrite (prefix_lookup_total st st') by auto. auto.
Qed.

(** X1.  A construction that returns has given the embedding a weight of
    shape [(d_model, d_input)] and a bias of shape [(d_model)], the output
    projection a weight of shape [(d_output, d_model)] and a bias of shape
    [(d_output)], and the table, if one was asked for, the shape
    [(k, d_model)] of its generator; every reference of the object is to a
    live tensor; and this stays so in every store that only grows. *)
Theorem init_shapes
    d_input d_model d_output q v h k N dropout chunk_mode pe s self s' :
  generators_shaped →
  __init__ d_input d_model d_output q v h k N dropout chunk_mode pe s
    = (Ok self, s') →
  ∀ st, store s' `prefix_of` st →
    configured (Z.to_nat d_input) (Z.to_nat d_model) (Z.to_nat d_output)
      (Z.to_nat k) self st.
Proof.
  intros Hgen Hrun st Hp. eapply configured_prefix; [|exact Hp].
  eapply init_configured; eauto.
Qed.

(** X2.  A construction that returns has changed no tensor that was live
    before it; it has created one tensor for each reference of the object
    and no other: four for the two affine maps and one for the table if
    there is one.  The references are pairwise distinct, so the embedding
    and the output projection share no parameter. *)
Theorem init_allocates
    d_input d_model d_output q v h k N dropout chunk_mode pe s self s' :
  __init__ d_input d_model d_output q v h k N dropout chunk_mode pe s
    = (Ok self, s') →
  store s `prefix_of` store s' ∧
  length (store s') = length (store s) + length (references self) ∧
  NoDup (references self) ∧
  Forall (λ l, length (store s) ≤ l < length (store s')) (references self).
Proof.
  intros Hrun. apply init_ok_inv in Hrun. cbn zeta in Hrun.
  destruct Hrun as (He & Hl & wb1 & wb2 & Hpe).
  unfold references. rewrite He, Hl. cbn [weight bias].
  set (n0 := length (store s)) in *.
  destruct pe as [name|].
  - destruct Hpe as (gen & t & _ & _ & -> & ->). simpl option_list. cbn [app].
    rewrite !length_app. cbn [length affine_parameters]. fold n0.
    split; [apply prefix_app_r; reflexivity|]. split; [lia|]. split.
    + exact (NoDup_seq n0 5).
    + repeat (apply List.Forall_cons; [lia|]). apply List.Forall_nil.
  - destruct Hpe as (-> & ->). simpl option_list. cbn [app].
    rewrite !length_app. cbn [length affine_parameters]. fold n0.
    split; [apply prefix_app_r; reflexivity|]. split; [lia|]. split.
    + exact (NoDup_seq n0 4).
    + repeat (apply List.Forall_cons; [lia|]). apply List.Forall_nil.
Qed.

(** X3.  The name selects the generator: after a construction with
    [pe='original'] the table holds what [generate_original_PE(k, d_model)]
    returned, after one with [pe='regular'] what
    [generate_regular_PE(k, d_model)] returned, the arguments in this
    order. *)
Theorem init_table_dispatch
    d_input d_model d_output q v h k N dropout chunk_mode name s self s' :
  __init__ d_input d_model d_output q v h k N dropout chunk_mode (Some name) s
    = (Ok self, s') →
  ∃ l, _PE self = Some l ∧
    ((name = "original"%string ∧
      generate_original_PE k d_model = Ok (store s' !!! l)) ∨
     (name = "regular"%string ∧
      generate_regular_PE k d_model = Ok (store s' !!! l))).
Proof.
  intros Hrun. apply init_ok_inv in Hrun. cbn zeta in Hrun.
  destruct Hrun as (_ & _ & wb1 & wb2 & gen & t & Hlook & Hgen & HPE & Hst).
  eexists. split; [exact HPE|].
  assert (Ht : store s' !!! S (S (S (S (length (store s))))) = t).
  { rewrite Hst. apply list_lookup_total_correct.
    rewrite lookup_app_r by lia.
    replace (S (S (S (S (length (store s))))) - length (store s)) with 4 by lia.
    reflexivity. }
  rewrite Ht. cbn in Hlook.
  destruct (String.eqb_spec name "original") as [->|_];
    [left; split; [reflexivity|congruence]|].
  destruct (String.eqb_spec name "regular") as [->|_];
    [right; split; [reflexivity|congruence]|discriminate].
Qed.

(** X5.  The name of the positional encoding is checked last: when the
    configuration error is raised, every layer of both stacks and both
    affine maps have been constructed, and the four tensors of the affine
    maps have been created. *)
Theorem init_pe_checked_last
    d_input d_model d_output q v h k N dropout chunk_mode pe s msg :
  let run := __init__ d_input d_model d_output q v h k N dropout chunk_mode pe s in
  run.1 = Error (NameError msg) →
  (∃ wb1 wb2,
     store run.2 = store s ++ affine_parameters d_input d_model d_output wb1 wb2) ∧
  trace run.2 =
    trace s ++
    repeat (CallEncoder d_model q v h k dropout chunk_mode) (Z.to_nat N) ++
    repeat (CallDecoder d_model q v h k dropout chunk_mode) (Z.to_nat N) ++
    [CallLinear d_input d_model; CallLinear d_model d_output].
Proof.
  cbn zeta. intros Hrun.
  pose proof (init_outcome d_input d_model d_output q v h k N dropout
                chunk_mode pe s) as Hout. cbn zeta in Hout.
  rewrite Hrun in Hout. destruct Hout as (Hnot & (name & -> & _) & Htr).
  apply not_recognised in Hnot as Hne.
  split.
  - rewrite init_split in Hrun |- *.
    pose proof (init_stacks_run d_model q v h k N dropout chunk_mode s) as Hst.
    cbn zeta in Hst. destruct Hst as [Hs1 Hw].
    destruct (init_stacks d_model q v h k N dropout chunk_mode s)
      as [[[encs decs]|e] s1]; cbn [fst snd] in Hs1, Hw.
    2:{ destruct Hw as [w ->]. discriminate. }
    pose proof (init_rest_run d_input d_model d_output k (Some name) encs decs s1)
      as Hr. cbn zeta in Hr.
    destruct (Linear_init d_input d_model (rng s1)) as [[wb1|w] r1];
      [|rewrite Hr in Hrun; discriminate].
    destruct (Linear_init d_model d_output r1) as [[wb2|w] r2];
      [|rewrite Hr in Hrun; discriminate].
    match type of Hr with context [init_PE _ _ _ ?s3] =>
      pose proof (init_PE_run k d_model (Some name) s3) as HPE end.
    cbn beta iota in HPE. rewrite pe_lookup_other in HPE by tauto.
    destruct HPE as [_ HPE]. rewrite HPE in Hr. rewrite Hr. cbn [snd store].
    rewrite Hs1. eauto.
  - rewrite Htr. unfold expected_calls.
    rewrite bool_decide_eq_false_2 by (intros [?|?]; tauto).
    now rewrite app_nil_r.
Qed.

(** X11.  Construction and forward pass fit together: the object a
    construction returns, in any later store that kept its tensors, takes
    an input of shape [(batch, k, d_input)] to an output of shape
    [(batch, k, d_output)] without raising, for generators that return
    [(k, d_model)] tables and layers that keep [(batch, k, d_model)]. *)
Theorem construct_then_forward
    d_input d_model d_output q v h k N dropout chunk_mode pe s self s1 B x s2 :
  generators_shaped →
  __init__ d_input d_model d_output q v h k N dropout chunk_mode pe s
    = (Ok self, s1) →
  store s1 `prefix_of` store s2 →
  shape (store s2 !!! x) = [B; Z.to_nat k; Z.to_nat d_input] →
  Forall (Encoder_shape_preserving B (Z.to_nat k) (Z.to_nat d_model))
    (layers_encoding self) →
  Forall (Decoder_shape_preserving B (Z.to_nat k) (Z.to_nat d_model))
    (layers_decoding self) →
  ∃ out, (forward self x s2).1 = Ok out ∧
    shape (store (forward self x s2).2 !!! out) =
      [B; Z.to_nat k; Z.to_nat d_output].
Proof.
  intros Hgen Hrun Hp Hx Hencs Hdecs.
  pose proof (configured_prefix _ _ _ _ _ _ _
                (init_configured _ _ _ _ _ _ _ _ _ _ _ _ _ _ Hgen Hrun) Hp)
    as (Hal & HWe & Hbe & HWo & Hbo & Htbl).
  pose proof (tracks_returns _ _ _ _ _ (forward_tracks self x s2 Hal)) as Hret.
  destruct (forward_spec_shape (Z.to_nat d_input) (Z.to_nat d_model)
              (Z.to_nat d_output) (Z.to_nat k) B
              (parameters_of self (store s2)) (layers_encoding self)
              (layers_decoding self) (store s2 !!! x) (rng s2))
    as (y & Hy & Hsh & _); auto.
  { cbn. intros t Ht. destruct (_PE self) as [l|]; [|discriminate].
    injection Ht as <-. now apply Htbl. }
  unfold returns in Hret. rewrite Hy in Hret.
  destruct (forward self x s2).1 as [out|e]; [|contradiction].
  exists out. rewrite Hret. auto.
Qed.

End MoreConstruction.

(** ** The additions are in place *)

Section InPlace.
Context `{Collaborators}.

Lemma encoder_loop_fresh layer rest enc s l s' :
  foldM (λ encoding layer, Encoder_call layer encoding) enc (layer :: rest) s
    = (Ok l, s') →
  length (store s) ≤ l.
Proof.
  cbn [foldM]. intros (a & s1 & Hc & Hk)%bind_ok_inv.
  rewrite Encoder_call_eq in Hc.
  destruct (Encoder_forward layer _ _) as [[y|w] r]; [|discriminate].
  injection Hc as <- <-.
  pose proof (encoder_loop rest (length (store s))
                (State (store s ++ [y]) r (trace s))) as Ht.
  destruct Ht as (_ & _ & _ & Hres).
  { cbn. rewrite length_app. cbn. lia. }
  rewrite Hk in Hres. cbn [fst] in Hres.
  destruct (encoder_stack rest _ _).1; [|contradiction]. lia.
Qed.

Lemma decoder_loop_prefix layers mem : ∀ dec s d s',
  foldM (λ decoding layer, Decoder_call layer decoding mem) dec layers s = (Ok d, s') →
  store s `prefix_of` store s'.
Proof.
  induction layers as [|layer rest IH]; intros dec s d s'; cbn [foldM].
  - now intros [= _ <-].
  - intros (a & sa & Hc & Hk)%bind_ok_inv. apply IH in Hk.
    rewrite Decoder_call_eq in Hc.
    destruct (Decoder_forward layer _ _ _) as [[y|w] r]; [|discriminate].
    injection Hc as _ <-. etrans; [|exact Hk]. cbn. now apply prefix_app_r.
Qed.

(** The decoder stack, the projection and the sigmoid only create tensors. *)
Lemma decode_tail_prefix self enc s out s' :
  decode_tail self enc s = (Ok out, s') → store s `prefix_of` store s'.
Proof.
  unfold decode_tail. cbv zeta.
  intros (d & s5 & H5 & Hrun)%bind_ok_inv.
  apply bind_ok_inv in Hrun as (o1 & s6 & H6 & Hrun).
  apply bind_ok_inv in Hrun as (o2 & s7 & H7 & Hrun).
  injection Hrun as _ <-.
  rewrite torch_sigmoid_eq in H7. injection H7 as _ <-.
  rewrite Linear_call_eq in H6.
  destruct (linear_val _ _ _) as [P|e] in H6; [|discriminate].
  injection H6 as _ <-. cbn [store].
  do 2 apply prefix_app_r. eapply decoder_loop_prefix; eauto.
Qed.

(** X12.  With a table, the tensor the embedding created does not keep
    the embedding: the first addition overwrites it, and with an empty
    encoder stack the second addition overwrites it again, so that after
    the call it holds the embedding plus the table, or plus the table
    twice. *)
Theorem forward_overwrites_embedding self x s l out E0 :
  allocated self (store s) →
  _PE self = Some l →
  (forward self x s).1 = Ok out →
  linear_val (store s !!! x) (store s !!! weight (_embedding self))
    (store s !!! bias (_embedding self)) = Ok E0 →
  ∃ E1, add_val E0 (store s !!! l) = Ok E1 ∧
    match layers_encoding self with
    | [] => ∃ E2, add_val E1 (store s !!! l) = Ok E2 ∧
              store (forward self x s).2 !!! length (store s) = E2
    | _ :: _ => store (forward self x s).2 !!! length (store s) = E1
    end.
Proof.
  intros Hal HPE Hout HE0.
  assert (Hlt : l < length (store s)) by (apply Hal; exact HPE).
  destruct (forward self x s) as [res s'] eqn:Hrun. cbn [fst snd] in *. subst res.
  rewrite forward_cut in Hrun.
  apply bind_ok_inv in Hrun as (e0 & s1 & H1 & Hrun).
  rewrite Linear_call_eq, HE0 in H1. injection H1 as <- <-.
  apply bind_ok_inv in Hrun as (u1 & s2 & H2 & Hrun).
  unfold add_PE in H2. rewrite HPE, add__eq in H2. cbn [store] in H2.
  rewrite list_lookup_total_middle in H2 by reflexivity.
  rewrite lookup_total_app_l in H2 by exact Hlt.
  destruct (add_val E0 (store s !!! l)) as [E1|e]; [|discriminate].
  injection H2 as _ <-. exists E1. split; [reflexivity|].
  rewrite insert_app_r_alt, Nat.sub_diag in Hrun by lia. cbn [insert list_insert] in Hrun.
  set (s2 := State (store s ++ [E1]) (rng s) (trace s)) in *.
  assert (Hn0 : length (store s) < length (store s2)).
  { cbn. rewrite length_app. cbn. lia. }
  assert (HE1 : store s2 !!! length (store s) = E1).
  { cbn. now apply list_lookup_total_middle. }
  unfold encode_tail in Hrun.
  apply bind_ok_inv in Hrun as (l3 & s3 & H3 & Hrun).
  apply bind_ok_inv in Hrun as (u2 & s4 & H4 & Hrun).
  apply decode_tail_prefix in Hrun as Hfinal.
  pose proof (encoder_loop (layers_encoding self) (length (store s)) s2 Hn0)
    as (Hp3 & _ & _ & Hres).
  rewrite H3 in Hp3, Hres. cbn [fst snd] in Hp3, Hres.
  destruct (encoder_stack _ _ _).1 as [M0|e]; [|contradiction].
  destruct Hres as [[Hlo Hhi] HM0].
  unfold add_PE in H4. rewrite HPE, add__eq in H4.
  assert (Hl3 : store s3 !!! l = store s !!! l).
  { apply prefix_lookup_total; [|exact Hlt].
    etrans; [|exact Hp3]. cbn. now apply prefix_app_r. }
  rewrite Hl3 in H4.
  destruct (add_val (store s3 !!! l3) (store s !!! l)) as [Mem|e] eqn:Hadd;
    [|discriminate].
  injection H4 as _ <-.
  assert (Hps : store s `prefix_of` <[l3:=Mem]> (store s3)).
  { apply prefix_insert_ge; [|lia]. etrans; [|exact Hp3]. cbn.
    now apply prefix_app_r. }
  rewrite (prefix_lookup_total _ _ _ Hfinal)
    by (cbn [store]; rewrite length_insert; apply prefix_length in Hp3; lia).
  cbn [store].
  destruct (layers_encoding self) as [|layer rest] eqn:Hlayers.
  - cbn [foldM] in H3. injection H3 as <- <-. rewrite HE1 in Hadd.
    exists Mem. split; [exact Hadd|].
    now apply list_lookup_total_insert_eq.
  - apply encoder_loop_fresh in H3.
    rewrite list_lookup_total_insert_ne by lia.
    rewrite (prefix_lookup_total (store s2) (store s3)) by auto. exact HE1.
Qed.

End InPlace.

(** ** The properties on the small instance *)

#[local] Existing Instance Toy.scalar.
#[local] Existing Instance Toy.collaborators.

Lemma toy_built : Toy.built.1 = Ok Toy.model.
Proof. vm_compute. reflexivity. Qed.

Lemma toy_allocated : allocated Toy.model (store Toy.ready).
Proof.
  unfold allocated. vm_compute. repeat split; try lia.
  intros l [= <-]. lia.
Defined.

Lemma forward_is_composition_witness :
  returns (forward Toy.model 5 Toy.ready)
    (forward_spec (parameters_of Toy.model (store Toy.ready)) Toy.encoders
       Toy.decoders Toy.input (rng Toy.ready)).1.
Proof. exact (proj1 (forward_is_composition Toy.model 5 Toy.ready toy_allocated)). Defined.

Lemma toy_configured : configured 3 2 1 2 Toy.model (store Toy.ready).
Proof.
  split; [exact toy_allocated|]. vm_compute. repeat split.
  intros l [= <-]. reflexivity.
Defined.

Lemma toy_encoder_shape B k d (c : Z) : Encoder_shape_preserving B k d c.
Proof. intros t r Ht. exists (Toy.shift c t). split; [reflexivity|exact Ht]. Defined.

Lemma toy_decoder_shape B k d (c : Z) : Decoder_shape_preserving B k d c.
Proof. intros t m r Ht Hm. exists (Toy.mix c t m). split; [reflexivity|exact Ht]. Defined.

Lemma toy_encoders : Forall (Encoder_shape_preserving 1 2 2) Toy.encoders.
Proof. repeat (apply List.Forall_cons; [apply toy_encoder_shape|]). apply List.Forall_nil. Defined.

Lemma toy_decoders : Forall (Decoder_shape_preserving 1 2 2) Toy.decoders.
Proof. repeat (apply List.Forall_cons; [apply toy_decoder_shape|]). apply List.Forall_nil. Defined.

Lemma forward_shape_witness :
  ∃ out, (forward Toy.model 5 Toy.ready).1 = Ok out ∧
    shape (store (forward Toy.model 5 Toy.ready).2 !!! out) = [1; 2; 1] ∧
    length (data (store (forward Toy.model 5 Toy.ready).2 !!! out)) = 1 * 2 * 1.
Proof.
  apply (forward_shape 3 2 1 2 1 Toy.model 5 Toy.ready toy_configured).
  - reflexivity.
  - exact toy_encoders.
  - exact toy_decoders.
Defined.

Lemma toy_encoders_deterministic : Forall Encoder_deterministic Toy.encoders.
Proof. repeat (apply List.Forall_cons; [intros t r r'; reflexivity|]). apply List.Forall_nil. Defined.

Lemma toy_decoders_deterministic : Forall Decoder_deterministic Toy.decoders.
Proof. repeat (apply List.Forall_cons; [intros t m r r'; reflexivity|]). apply List.Forall_nil. Defined.

Lemma forward_frame_witness :
  parameters_of Toy.model (store (forward Toy.model 5 Toy.ready).2) =
  parameters_of Toy.model (store Toy.ready) ∧
  trace (forward Toy.model 5 Toy.ready).2 = trace Toy.ready.
Proof.
  destruct (forward_frame Toy.model 5 Toy.ready toy_allocated)
    as (_ & Hpar & Htr & _).
  exact (conj Hpar Htr).
Defined.

Lemma forward_deterministic_witness :
  same_outcome (forward Toy.model 5 Toy.ready)
    (forward Toy.model 5 (forward Toy.model 5 Toy.ready).2).
Proof.
  apply (proj1 (forward_deterministic Toy.model toy_encoders_deterministic
                  toy_decoders_deterministic) 5 Toy.ready toy_allocated).
  vm_compute. lia.
Defined.

Lemma init_checks_pe_witness :
  (@__init__ Toy.scalar Toy.collaborators 3 2 1 4 4 2 2 2 default_dropout
     default_chunk_mode (Some "original"%string) Toy.start).1 = Ok Toy.model ∧
  (@__init__ Toy.scalar Toy.collaborators 3 2 1 4 4 2 2 2 default_dropout
     default_chunk_mode (Some "none"%string) Toy.start).1 =
  Error (NameError (configuration_error_text "none")).
Proof.
  set (S1 := (@init_stacks Toy.scalar Toy.collaborators 2 4 4 2 2 2
                default_dropout default_chunk_mode Toy.start).2).
  set (S2 := (@nn_Linear Toy.scalar Toy.collaborators 3 2 S1).2).
  set (S3 := (@nn_Linear Toy.scalar Toy.collaborators 2 1 S2).2).
  assert (H1 : @init_stacks Toy.scalar Toy.collaborators 2 4 4 2 2 2
                 default_dropout default_chunk_mode Toy.start
               = (Ok (Toy.encoders, Toy.decoders), S1))
    by (vm_compute; reflexivity).
  assert (H2 : @nn_Linear Toy.scalar Toy.collaborators 3 2 S1
               = (Ok {| weight := 0; bias := 1 |}, S2))
    by (vm_compute; reflexivity).
  assert (H3 : @nn_Linear Toy.scalar Toy.collaborators 2 1 S2
               = (Ok {| weight := 2; bias := 3 |}, S3))
    by (vm_compute; reflexivity).
  split.
  - exact (f_equal fst
             (proj2 (proj2 (init_checks_pe 3 2 1 4 4 2 2 2 default_dropout
                default_chunk_mode (Some "original"%string) Toy.start))
                _ _ _ _ _ _ _ H1 H2 H3)).
  - exact (f_equal fst
             (proj2 (proj2 (init_checks_pe 3 2 1 4 4 2 2 2 default_dropout
                default_chunk_mode (Some "none"%string) Toy.start))
                _ _ _ _ _ _ _ H1 H2 H3)).
Defined.

Lemma init_without_pe_witness :
  forward Toy.plain 5 Toy.ready = forward_without_PE Toy.plain 5 Toy.ready.
Proof.
  refine (proj2 (proj2 (proj2 (init_without_pe 3 2 1 4 4 2 2 2 default_dropout
            default_chunk_mode Toy.start Toy.plain _ _))) 5 Toy.ready).
  vm_compute. reflexivity.
Defined.

Lemma toy_built0 : Toy.built0 = (Ok Toy.model0, Toy.built0.2).
Proof. vm_compute. reflexivity. Defined.

Lemma toy_allocated0 : allocated Toy.model0 (store Toy.ready0).
Proof.
  unfold allocated. vm_compute. repeat split; try lia.
  intros l [= <-]. lia.
Defined.

Lemma init_N0_witness :
  returns (forward Toy.model0 5 Toy.ready0)
    (stackless_pipeline (parameters_of Toy.model0 (store Toy.ready0)) Toy.input).
Proof.
  destruct (proj2 (proj2 (init_N0 3 2 1 4 4 2 2 default_dropout
              default_chunk_mode (Some "original"%string) Toy.start))
              Toy.model0 Toy.built0.2 toy_built0) as (_ & _ & Hf).
  exact (proj1 (Hf 5 Toy.ready0 toy_allocated0)).
Defined.

Lemma toy_recorded :
  Recording.built.1 = Ok Recording.model.
Proof. vm_compute. reflexivity. Defined.

Lemma init_validates_only_pe_witness :
  (build_layers
     (@Encoder_new Toy.scalar Recording.collaborators 2 4 5 6 7
        (PyFloat 0.5%float) (PyStr "window"))
     (Z.to_nat 2) 0).1 = Ok [Recording.given; Recording.given] ∧
  (build_layers
     (@Decoder_new Toy.scalar Recording.collaborators 2 4 5 6 7
        (PyFloat 0.5%float) (PyStr "window"))
     (Z.to_nat 2)
     (build_layers
        (@Encoder_new Toy.scalar Recording.collaborators 2 4 5 6 7
           (PyFloat 0.5%float) (PyStr "window"))
        (Z.to_nat 2) 0).2).1 = Ok [Recording.given; Recording.given].
Proof.
  exact (proj1 (proj2 (proj2 (proj2
           (@init_validates_only_pe Toy.scalar Recording.collaborators
              3 2 1 4 5 6 7 2 (PyFloat 0.5%float) (PyStr "window") None
              Recording.start))))
           Recording.model toy_recorded).
Defined.

Lemma exact_allocated :
  @allocated rationals (no_layers rationals) Exact.model
    (@store rationals (no_layers rationals) Exact.ready).
Proof.
  unfold allocated. cbn. repeat split; try lia. intros l [=].
Defined.

Lemma forward_output_range_witness :
  Forall (λ q : Q, (0 < q)%Q ∧ (q < 1)%Q)
    (@data rationals
       (@store rationals (no_layers rationals)
          (@forward rationals (no_layers rationals) Exact.model 4 Exact.ready).2
        !!! 7)).
Proof.
  apply (@forward_output_range rationals (no_layers rationals)
           (λ q : Q, (0 < q)%Q ∧ (q < 1)%Q) Exact.model 4 Exact.ready 7
           exact_allocated).
  - exact Qsquash_range.
  - vm_compute. reflexivity.
Defined.

(** The run of [forward] on the small instance, spelled out: the embedding
    of the input is [[7; 7; 16; 16]]; with the table [[0; 1; 2; 3]] added
    in place, then the two encoder layers and the table again, the memory
    is [[8; 10; 21; 23]]. *)
Example toy_forward :
  (forward Toy.model 5 Toy.ready).1 = Ok 12 ∧
  store (forward Toy.model 5 Toy.ready).2 !!! 12 =
    Tensor [1; 2; 1] [131; 287]%Z ∧
  store (forward Toy.model 5 Toy.ready).2 !!! 8 =
    Tensor [1; 2; 2] [8; 10; 21; 23]%Z ∧
  store (forward Toy.model 5 Toy.ready).2 !!! 4 =
    Tensor [2; 2] [0; 1; 2; 3]%Z.
Proof. vm_compute. repeat split. Qed.

(** The literal string "none" is not the absent value. *)
Example toy_none_string :
  (@__init__ Toy.scalar Toy.collaborators 3 2 1 4 4 2 2 2 default_dropout
     default_chunk_mode (Some "none"%string) Toy.start).1 =
  Error (NameError
    (String.append "PE "
       (String.append dquote
          (String.append "none"
             (String.append dquote
                " not understood. Must be one of original, regular or None."))))).
Proof. vm_compute. reflexivity. Qed.

(** A negative [N] builds empty stacks, like [range(N)]. *)
Example toy_negative_N :
  ∃ self s1,
    @__init__ Toy.scalar Toy.collaborators 3 2 1 4 4 2 2 (-1) default_dropout
      default_chunk_mode None Toy.start = (Ok self, s1) ∧
    layers_encoding self = [] ∧ layers_decoding self = [].
Proof. do 2 eexists. vm_compute. repeat split. Qed.

(** With a layer that draws from the random generator, a second call on
    the same input returns another tensor: the hypothesis of evaluation
    mode is needed for determinism. *)
Example noisy_second_run_differs :
  Noisy.built.1 = Ok Noisy.model ∧
  ¬ @same_outcome Toy.scalar Noisy.collaborators Noisy.first_run Noisy.second_run.
Proof. split; [vm_compute; reflexivity|]. vm_compute. discriminate. Qed.

(** ** The further properties on the small instance *)

Lemma toy_generators_shaped : @generators_shaped Toy.scalar Toy.collaborators.
Proof. intros k d t [[= <-]|[= <-]]; reflexivity. Defined.

Lemma toy_built_eq :
  @__init__ Toy.scalar Toy.collaborators 3 2 1 4 4 2 2 2 default_dropout
    default_chunk_mode (Some "original"%string) Toy.start
  = (Ok Toy.model, Toy.built.2).
Proof. vm_compute. reflexivity. Defined.

Lemma toy_ready_extends : store Toy.built.2 `prefix_of` store Toy.ready.
Proof. exists [Toy.input]. vm_compute. reflexivity. Defined.

Lemma init_shapes_witness :
  configured (Z.to_nat 3) (Z.to_nat 2) (Z.to_nat 1) (Z.to_nat 2)
    Toy.model (store Toy.ready).
Proof.
  exact (init_shapes 3 2 1 4 4 2 2 2 default_dropout default_chunk_mode
           (Some "original"%string) Toy.start Toy.model Toy.built.2
           toy_generators_shaped toy_built_eq (store Toy.ready) toy_ready_extends).
Defined.

Lemma init_allocates_witness :
  store Toy.start `prefix_of` store Toy.built.2 ∧
  length (store Toy.built.2) = length (store Toy.start) + length (references Toy.model) ∧
  NoDup (references Toy.model) ∧
  Forall (λ l, length (store Toy.start) ≤ l < length (store Toy.built.2))
    (references Toy.model).
Proof.
  exact (init_allocates 3 2 1 4 4 2 2 2 default_dropout default_chunk_mode
           (Some "original"%string) Toy.start Toy.model Toy.built.2 toy_built_eq).
Defined.

Lemma init_table_dispatch_witness :
  ∃ l, _PE Toy.model = Some l ∧
    (("original"%string = "original"%string ∧
      generate_original_PE 2 2 = Ok (store Toy.built.2 !!! l)) ∨
     ("original"%string = "regular"%string ∧
      generate_regular_PE 2 2 = Ok (store Toy.built.2 !!! l))).
Proof.
  exact (init_table_dispatch 3 2 1 4 4 2 2 2 default_dropout default_chunk_mode
           "original"%string Toy.start Toy.model Toy.built.2 toy_built_eq).
Defined.

Lemma init_pe_checked_last_witness :
  trace (@__init__ Toy.scalar Toy.collaborators 3 2 1 4 4 2 2 2 default_dropout
           default_chunk_mode (Some "none"%string) Toy.start).2 =
  trace Toy.start ++
  repeat (CallEncoder 2 4 4 2 2 default_dropout default_chunk_mode) (Z.to_nat 2) ++
  repeat (CallDecoder 2 4 4 2 2 default_dropout default_chunk_mode) (Z.to_nat 2) ++
  [CallLinear 3 2; CallLinear 2 1].
Proof.
  refine (proj2 (init_pe_checked_last 3 2 1 4 4 2 2 2 default_dropout
                   default_chunk_mode (Some "none"%string) Toy.start
                   (configuration_error_text "none") _)).
  vm_compute. reflexivity.
Defined.

Lemma forward_allocates_witness :
  length (store (forward Toy.model 5 Toy.ready).2) =
    length (store Toy.ready) + length (layers_encoding Toy.model)
                             + length (layers_decoding Toy.model) + 3 ∧
  S 12 = length (store (forward Toy.model 5 Toy.ready).2).
Proof.
  apply (forward_allocates Toy.model 5 Toy.ready 12). vm_compute. reflexivity.
Defined.


Lemma forward_wrong_width_witness :
  forward Toy.model 4 Toy.ready = (Error RuntimeError, Toy.ready).
Proof.
  apply (forward_wrong_width 3 2 Toy.model 4 Toy.ready).
  - vm_compute. reflexivity.
  - vm_compute. discriminate.
Defined.

Lemma toy_allocated_long : allocated Toy.model (store MoreToy.ready_long).
Proof.
  unfold allocated. vm_compute. repeat split; try lia.
  intros l [= <-]. lia.
Defined.

Lemma toy_allocated_flat : allocated Toy.model (store MoreToy.ready_flat).
Proof.
  unfold allocated. vm_compute. repeat split; try lia.
  intros l [= <-]. lia.
Defined.

Lemma toy_affine_shaped st :
  store Toy.built.2 `prefix_of` st → affine_shaped 3 2 1 Toy.model st.
Proof.
  intros [ext ->]. vm_compute. repeat split.
Defined.

Lemma forward_rejects_length_witness :
  (forward Toy.model 5 MoreToy.ready_long).1 = Error RuntimeError ∧
  rng (forward Toy.model 5 MoreToy.ready_long).2 = rng MoreToy.ready_long ∧
  length (store (forward Toy.model 5 MoreToy.ready_long).2) =
    S (length (store MoreToy.ready_long)).
Proof.
  apply (forward_rejects_length 3 2 1 2 Toy.model 5 MoreToy.ready_long 4
           toy_allocated_long).
  - apply toy_affine_shaped. exists [MoreToy.long_input]. reflexivity.
  - reflexivity.
  - reflexivity.
  - right. exists [1], 3. split; [reflexivity|]. split; lia.
Defined.

Lemma toy_encoder_keeps sh (c : Z) : Encoder_keeps sh c.
Proof. intros t r Ht. exists (Toy.shift c t). split; [reflexivity|exact Ht]. Defined.

Lemma toy_decoder_keeps sh (c : Z) : Decoder_keeps sh c.
Proof. intros t m r Ht Hm. exists (Toy.mix c t m). split; [reflexivity|exact Ht]. Defined.

Lemma forward_accepts_witness :
  ∃ out, (forward Toy.model 5 MoreToy.ready_flat).1 = Ok out ∧
    shape (store (forward Toy.model 5 MoreToy.ready_flat).2 !!! out) = [] ++ [2; 1] ∧
    length (data (store (forward Toy.model 5 MoreToy.ready_flat).2 !!! out)) =
      numel ([] ++ [2; 1]).
Proof.
  apply (forward_accepts 3 2 1 2 2 [] Toy.model 5 MoreToy.ready_flat
           toy_allocated_flat).
  - apply toy_affine_shaped. exists [MoreToy.flat_input]. reflexivity.
  - intros l [= <-]. split; [reflexivity|left; reflexivity].
  - reflexivity.
  - repeat (apply List.Forall_cons; [apply toy_encoder_keeps|]). apply List.Forall_nil.
  - repeat (apply List.Forall_cons; [apply toy_decoder_keeps|]). apply List.Forall_nil.
Defined.

Lemma construct_then_forward_witness :
  ∃ out, (forward Toy.model 5 Toy.ready).1 = Ok out ∧
    shape (store (forward Toy.model 5 Toy.ready).2 !!! out) =
      [1; Z.to_nat 2; Z.to_nat 1].
Proof.
  apply (construct_then_forward 3 2 1 4 4 2 2 2 default_dropout
           default_chunk_mode (Some "original"%string) Toy.start Toy.model
           Toy.built.2 1 5 Toy.ready toy_generators_shaped toy_built_eq
           toy_ready_extends).
  - reflexivity.
  - exact toy_encoders.
  - exact toy_decoders.
Defined.

Lemma forward_overwrites_embedding_witness :
  ∃ E1, add_val MoreToy.embedded (store Toy.ready !!! 4) = Ok E1 ∧
    store (forward Toy.model 5 Toy.ready).2 !!! length (store Toy.ready) = E1.
Proof.
  apply (forward_overwrites_embedding Toy.model 5 Toy.ready 4 12
           MoreToy.embedded toy_allocated).
  - reflexivity.
  - vm_compute. reflexivity.
  - vm_compute. reflexivity.
Defined.
